(** * SimpleDatabase: the file-backed song database of MPD

    A shallow embedding of [src/db/SimpleDatabasePlugin.cxx].

    The methods of [SimpleDatabase] are written in a small state monad whose
    state holds the object's members ([path], [root], [mtime]), the world
    outside the object (filesystem, C library, visitor closures) and the
    trace of the calls the method has made.  A computation that runs into a
    failed [assert] or dereferences a pointer that designates nothing has no
    result ([None]). *)

From Stdlib Require Import String Ascii ZArith List Bool Lia Permutation.
Import ListNotations.

Local Open Scope string_scope.
Local Open Scope Z_scope.
Local Open Scope list_scope.

(** ** Songs, playlists and directories *)

Record song := mkSong {
  song_uri : string;
  song_tags : list (string * string);
  song_duration : Z;
  song_mtime : Z
}.

Record playlist_metadata := mkPlaylist {
  playlist_name : string
}.

(** [struct directory]: its name, its child directories, its songs and its
    playlists.  A child is owned by the directory whose [children] holds it;
    the parent back-reference of the C structure is the position in the
    tree. *)
Unset Elimination Schemes.
Inductive directory := Directory {
  name : string;
  children : list directory;
  songs : list song;
  playlists : list playlist_metadata
}.
Set Elimination Schemes.

(** ** GLib errors *)

Inductive quark := simple_db_quark | db_quark.

(** [enum db_error] of db_error.h; the numeric values are not needed. *)
Inductive db_error := DB_DISABLED | DB_NOT_FOUND.

Inductive error_code :=
| Code (n : Z)
| DbCode (e : db_error).

(** The format strings handed to [g_set_error], each with its arguments;
    an [errno] argument stands for [g_strerror(errno)]. *)
Inductive message :=
| MsgStatParent (db_path : string) (errno : Z)
    (* Couldn't stat parent directory of db file %s: %s *)
| MsgParentNotDirectory (db_path : string)
    (* Couldn't create db file %s because the parent path is not a directory *)
| MsgCantCreate (dir_path : string) (errno : Z)
    (* Can't create db file in %s: %s *)
| MsgStatFile (db_path : string) (errno : Z)
    (* Couldn't stat db file %s: %s *)
| MsgNotRegular (db_path : string)
    (* db file %s is not a regular file *)
| MsgCantOpenRW (db_path : string) (errno : Z)
    (* Can't open db file %s for reading/writing: %s *)
| MsgOpenFailed (db_path : string) (errno : Z)
    (* Failed to open database file %s: %s *)
| MsgUnableToWrite (db_path : string) (errno : Z)
    (* unable to write to db file %s: %s *)
| MsgWriteFailed (errno : Z)
    (* Failed to write to database file: %s *)
| MsgNoSuchSong (uri : string)
    (* No such song: %s *)
| MsgNoSuchDirectory
    (* No such directory *)
| MsgFailedToLoad (inner : message)
    (* Failed to load database: %s *)
| MsgOther (text : string).
    (* a message composed outside this file: codec, visitor *)

Record GError := g_set_error {
  domain : quark;
  code : error_code;
  msg : message
}.

(** A [bool] return value together with what the callee left in
    [*error_r].  A caller that passes [NULL] drops the second component. *)
Definition ret : Type := bool * option GError.

Definition OK : ret := (true, None).
Definition FAIL (e : GError) : ret := (false, Some e).

(** ** The platform *)

Definition FILE := nat.

Record stat_t := mkStat {
  st_mode : Z;
  st_mtime : Z
}.

Definition S_IFMT : Z := 61440.   (* 0170000 *)
Definition S_IFDIR : Z := 16384.  (* 0040000 *)
Definition S_IFREG : Z := 32768.  (* 0100000 *)

Definition S_ISDIR (m : Z) : bool := Z.land m S_IFMT =? S_IFDIR.
Definition S_ISREG (m : Z) : bool := Z.land m S_IFMT =? S_IFREG.

Definition F_OK : Z := 0.
Definition X_OK : Z := 1.
Definition W_OK : Z := 2.
Definition R_OK : Z := 4.

(** What the code calls but does not define: the C library, GLib's
    [g_path_get_dirname], the codec of db_save.h and the collation used by
    [directory_sort].  [W] is everything outside the database object; every
    call may change it.  [db_load_internal] fills the directory it is given
    and, when it returns [false], has set the error. *)
Class System (W : Type) := {
  sys_errno : W -> Z;
  sys_access : string -> Z -> W -> Z * W;
  sys_stat : string -> W -> option stat_t * W;
  sys_fopen : string -> string -> W -> option FILE * W;
  sys_fclose : FILE -> W -> W;
  sys_ferror : FILE -> W -> bool * W;
  g_path_get_dirname : string -> string;
  db_load_internal : FILE -> directory -> W -> ret * directory * W;
  db_save_internal : FILE -> directory -> W -> W;
  name_le : string -> string -> bool;
  song_le : song -> song -> bool;
  playlist_le : playlist_metadata -> playlist_metadata -> bool;
  db_load_internal_sets_error :
    forall fp d w b e d' w',
      db_load_internal fp d w = ((b, e), d', w') -> b = false -> e <> None
}.

(** ** Events *)

Inductive event :=
| EvLock
| EvUnlock
| EvDebug (text : string)
| EvWarning (m : message)
| EvAccess (p : string) (mode : Z)
| EvStat (p : string)
| EvFopen (p : string) (mode : string)
| EvFclose (fp : FILE)
| EvFerror (fp : FILE)
| EvLoadInternal (fp : FILE)
| EvSaveInternal (fp : FILE)
| EvPruneEmpty (d : directory)
| EvSort (d : directory)
| EvVisitDirectory (d : directory)
| EvVisitSong (s : song)
| EvVisitPlaylist (p : playlist_metadata).

(** The events that touch the filesystem. *)
Definition is_io (e : event) : bool :=
  match e with
  | EvAccess _ _ | EvStat _ | EvFopen _ _ | EvFclose _ | EvFerror _
  | EvLoadInternal _ | EvSaveInternal _ => true
  | _ => false
  end.

(** [io_under_lock held tr]: some filesystem event of [tr] happens while
    the database lock is held, [held] telling whether it is at the start. *)
Fixpoint io_under_lock (held : bool) (tr : list event) : bool :=
  match tr with
  | [] => false
  | EvLock :: tr' => io_under_lock true tr'
  | EvUnlock :: tr' => io_under_lock false tr'
  | e :: tr' => (held && is_io e) || io_under_lock held tr'
  end.

(** ** Tree operations of directory.h *)

(** Modelled from the spec: [directory_new_root] is defined in directory.c,
    which is not part of the sources at hand.  Construction produces a single
    empty Root with no children; the Root has an empty uri. *)
Definition directory_new_root : directory := Directory EmptyString [] [] [].

(** A uri cut at its slashes; the empty uri has no segment. *)
Fixpoint split_segments (acc : string) (s : string) : list string :=
  match s with
  | EmptyString => [acc]
  | String c s' =>
      if Ascii.eqb c "/"%char then acc :: split_segments EmptyString s'
      else split_segments (acc ++ String c EmptyString)%string s'
  end.

Definition uri_segments (uri : string) : list string :=
  match uri with
  | EmptyString => []
  | _ => split_segments EmptyString uri
  end.

Definition find_child (n : string) (d : directory) : option directory :=
  find (fun c => (name c =? n)%string) (children d).

Fixpoint descend (segs : list string) (d : directory) : option directory :=
  match segs with
  | [] => Some d
  | n :: segs' =>
      match find_child n d with
      | Some c => descend segs' c
      | None => None
      end
  end.

(** Modelled from the spec: [directory_lookup_directory] (directory.c)
    splits the uri into path segments and descends from the root following
    exact name matches; none if any segment is missing. *)
Definition directory_lookup_directory (r : directory) (uri : string)
  : option directory :=
  descend (uri_segments uri) r.

(** Modelled from the spec: [directory_lookup_song] (directory.c) resolves
    the containing directory by stripping the final segment, then finds an
    exact song-uri match within that directory's songs. *)
Definition directory_lookup_song (r : directory) (uri : string)
  : option song :=
  match rev (uri_segments uri) with
  | [] => None
  | base :: rparents =>
      match descend (rev rparents) r with
      | Some d => find (fun s => (song_uri s =? base)%string) (songs d)
      | None => None
      end
  end.

Definition directory_is_empty (d : directory) : bool :=
  match children d, songs d, playlists d with
  | [], [], [] => true
  | _, _, _ => false
  end.

(** Modelled from the spec: [directory_prune_empty] (directory.c) removes
    every directory that, after removing empty descendant directories,
    itself contains no songs, no playlists and no remaining child
    directories; removal is bottom-up.  The directory it is called on stays. *)
Fixpoint directory_prune_empty (d : directory) : directory :=
  match d with
  | Directory n cs ss ps =>
      Directory n
        (filter (fun c => negb (directory_is_empty c))
                (map directory_prune_empty cs))
        ss ps
  end.

Section Sorting.

Context {A : Type} (le : A -> A -> bool).

Fixpoint insert_sorted (x : A) (l : list A) : list A :=
  match l with
  | [] => [x]
  | y :: l' => if le x y then x :: l else y :: insert_sorted x l'
  end.

Definition sort_list (l : list A) : list A :=
  fold_right insert_sorted [] l.

(** [x] may stand before [y]: it is not the case that [y] is before [x]
    and [x] is not before [y].  For a total [le] this is [le x y]. *)
Definition in_order (x y : A) : bool := le x y || negb (le y x).

(** Every element of [l] may stand before its successor. *)
Fixpoint ordered (l : list A) : bool :=
  match l with
  | x :: (y :: _) as l' => in_order x y && ordered l'
  | _ => true
  end.

End Sorting.

(** ** Shape of a tree *)

(** Every directory below [d] holds a song, a playlist or a directory. *)
Fixpoint all_nonempty_below (d : directory) : bool :=
  match d with
  | Directory _ cs _ _ =>
      forallb (fun c => negb (directory_is_empty c) && all_nonempty_below c) cs
  end.

(** What [f] finds in [d] and in every directory below it, parents first. *)
Fixpoint collect {A} (f : directory -> list A) (d : directory) : list A :=
  match d with
  | Directory _ cs _ _ => f d ++ flat_map (collect f) cs
  end.

Definition all_songs : directory -> list song := collect songs.
Definition all_playlists : directory -> list playlist_metadata :=
  collect playlists.

(** Induction on a directory with the hypothesis for each child. *)
Fixpoint directory_nested_ind (P : directory -> Prop)
    (step : forall n cs ss ps, Forall P cs -> P (Directory n cs ss ps))
    (d : directory) : P d :=
  match d with
  | Directory n cs ss ps =>
      step n cs ss ps
        ((fix each (l : list directory) : Forall P l :=
            match l with
            | [] => Forall_nil P
            | c :: l' => Forall_cons c (directory_nested_ind P step c) (each l')
            end) cs)
  end.

(** ** Selections and visitors *)

(** Modelled from the spec: the criteria list and [locate_list_song_match]
    are declared in locate.h, which is not part of the sources at hand; the
    spec has the match of a selection as a predicate over songs. *)
Definition locate_item_list : Type := song -> bool.

Definition locate_list_song_match (s : song) (m : locate_item_list) : bool :=
  m s.

Record DatabaseSelection := mkSelection {
  uri : string;
  recursive : bool;
  match_ : option locate_item_list   (* NULL: no criteria *)
}.

Definition song_matches (filter : option locate_item_list) (s : song) : bool :=
  match filter with
  | None => true
  | Some m => locate_list_song_match s m
  end.

(** ** Outcomes of the consistency check, as the specification names them *)

Inductive check_error :=
| ParentUnstatable
| ParentNotDirectory
| ParentNotWritable
| PathUnstatable
| NotRegularFile
| NotReadWritable.

Inductive check_result :=
| CheckOk
| CheckError (k : check_error).

(** The error kind a message of [Check] stands for. *)
Definition check_error_of (e : GError) : option check_error :=
  match msg e with
  | MsgStatParent _ _ => Some ParentUnstatable
  | MsgParentNotDirectory _ => Some ParentNotDirectory
  | MsgCantCreate _ _ => Some ParentNotWritable
  | MsgStatFile _ _ => Some PathUnstatable
  | MsgNotRegular _ => Some NotRegularFile
  | MsgCantOpenRW _ _ => Some NotReadWritable
  | _ => None
  end.

Definition check_result_of (r : ret) : option check_result :=
  match r with
  | (true, None) => Some CheckOk
  | (false, Some e) => option_map CheckError (check_error_of e)
  | _ => None
  end.

(** ** The database object and its surroundings *)

(** [root = None]: the pointer designates no tree (never assigned, or the
    tree it pointed to has been freed). *)
Record State (W : Type) := mkState {
  path : string;
  root : option directory;
  mtime : Z;
  world : W;
  trace : list event
}.

Arguments mkState {W} _ _ _ _ _.
Arguments path {W} _.
Arguments root {W} _.
Arguments mtime {W} _.
Arguments world {W} _.
Arguments trace {W} _.

(** ** A small disk

    One concrete platform, used to run the methods: files with a mode, a
    modification time and the tree their bytes decode to. *)

Record file := mkFile {
  f_mode : Z;
  f_mtime : Z;
  f_tree : option directory   (* None: bytes the codec rejects *)
}.

Record Disk := mkDisk {
  d_errno : Z;
  d_files : list (string * file);
  d_streams : list string;    (* stream n was opened on the n-th path *)
  d_clock : Z;                (* the time the next write is stamped with *)
  d_stat_fault : option Z;    (* stat fails with this errno *)
  d_write_fault : bool        (* writes fail and ferror reports it *)
}.

Definition ENOENT : Z := 2.
Definition ENOMEM : Z := 12.
Definition EACCES : Z := 13.
Definition ENOSPC : Z := 28.

Fixpoint lookup_file (p : string) (l : list (string * file)) : option file :=
  match l with
  | [] => None
  | (q, f) :: l' => if (q =? p)%string then Some f else lookup_file p l'
  end.

Fixpoint store_file (p : string) (f : file) (l : list (string * file))
  : list (string * file) :=
  match l with
  | [] => [(p, f)]
  | (q, g) :: l' =>
      if (q =? p)%string then (p, f) :: l' else (q, g) :: store_file p f l'
  end.

Definition with_errno (e : Z) (d : Disk) : Disk :=
  mkDisk e (d_files d) (d_streams d) (d_clock d) (d_stat_fault d)
         (d_write_fault d).

Definition with_files (l : list (string * file)) (d : Disk) : Disk :=
  mkDisk (d_errno d) l (d_streams d) (d_clock d) (d_stat_fault d)
         (d_write_fault d).

(** The owner's permission bits cover [mode]. *)
Definition permits (f : file) (mode : Z) : bool :=
  Z.land (Z.shiftr (f_mode f) 6) mode =? mode.

Definition disk_access (p : string) (mode : Z) (d : Disk) : Z * Disk :=
  match lookup_file p (d_files d) with
  | Some f => if permits f mode then (0, d) else (-1, with_errno EACCES d)
  | None => (-1, with_errno ENOENT d)
  end.

Definition disk_stat (p : string) (d : Disk) : option stat_t * Disk :=
  match d_stat_fault d with
  | Some e => (None, with_errno e d)
  | None =>
      match lookup_file p (d_files d) with
      | Some f => (Some (mkStat (f_mode f) (f_mtime f)), d)
      | None => (None, with_errno ENOENT d)
      end
  end.

Definition disk_dirname (p : string) : string :=
  match rev (split_segments EmptyString p) with
  | [] | [_] => "."
  | _ :: rparents =>
      match String.concat "/" (rev rparents) with
      | EmptyString => "/"
      | s => s
      end
  end.

Definition open_stream (p : string) (d : Disk) : option FILE * Disk :=
  (Some (length (d_streams d)),
   mkDisk (d_errno d) (d_files d) (d_streams d ++ [p]) (d_clock d)
          (d_stat_fault d) (d_write_fault d)).

(** Mode r opens a readable regular file; any other mode creates the file
    or truncates it. *)
Definition disk_fopen (p mode : string) (d : Disk) : option FILE * Disk :=
  match lookup_file p (d_files d) with
  | Some f =>
      if (mode =? "r")%string then
        if S_ISREG (f_mode f) && permits f R_OK then open_stream p d
        else (None, with_errno EACCES d)
      else
        if S_ISREG (f_mode f) && permits f W_OK
        then open_stream p
               (with_files (store_file p (mkFile (f_mode f) (d_clock d) None)
                                       (d_files d)) d)
        else (None, with_errno EACCES d)
  | None =>
      if (mode =? "r")%string then (None, with_errno ENOENT d)
      else
        match lookup_file (disk_dirname p) (d_files d) with
        | Some dir =>
            if S_ISDIR (f_mode dir) && permits dir (Z.lor X_OK W_OK)
            then open_stream p
                   (with_files (store_file p (mkFile 33188 (d_clock d) None)
                                           (d_files d)) d)
            else (None, with_errno EACCES d)
        | None => (None, with_errno ENOENT d)
        end
  end.

Definition stream_file (fp : FILE) (d : Disk) : option (string * file) :=
  match nth_error (d_streams d) fp with
  | Some p =>
      match lookup_file p (d_files d) with
      | Some f => Some (p, f)
      | None => None
      end
  | None => None
  end.

Definition malformed : GError :=
  g_set_error db_quark (Code 0) (MsgOther "Malformed database").

Definition disk_load (fp : FILE) (d0 : directory) (d : Disk)
  : ret * directory * Disk :=
  match stream_file fp d with
  | Some (_, f) =>
      match f_tree f with
      | Some t => (OK, t, d)
      | None => (FAIL malformed, d0, d)
      end
  | None => (FAIL malformed, d0, d)
  end.

Definition disk_save (fp : FILE) (t : directory) (d : Disk) : Disk :=
  if d_write_fault d then with_errno ENOSPC d
  else
    match stream_file fp d with
    | Some (p, f) =>
        with_files (store_file p (mkFile (f_mode f) (d_clock d) (Some t))
                               (d_files d)) d
    | None => d
    end.

#[global] Instance Disk_System : System Disk.
Proof.
  refine {|
    sys_errno := d_errno;
    sys_access := disk_access;
    sys_stat := disk_stat;
    sys_fopen := disk_fopen;
    sys_fclose := fun _ d => d;
    sys_ferror := fun _ d => (d_write_fault d, d);
    g_path_get_dirname := disk_dirname;
    db_load_internal := disk_load;
    db_save_internal := disk_save;
    name_le := String.leb;
    song_le := fun a b => String.leb (song_uri a) (song_uri b);
    playlist_le := fun a b => String.leb (playlist_name a) (playlist_name b)
  |}.
  intros fp d w b e d' w' H Hb. subst b. unfold disk_load in H.
  destruct (stream_file fp w) as [[p f]|];
    [destruct (f_tree f)|]; inversion H; discriminate.
Defined.

(** *** Sample trees and disks *)

Definition db_file : string := "/var/lib/mpd/db".

Definition track : song := mkSong "track.ogg" [("Title", "Track")] 180 900.

Definition library : directory :=
  Directory EmptyString [Directory "album" [] [track] []] [] [mkPlaylist "mix"].

(** [library] with a directory that holds nothing. *)
Definition library_with_empty : directory :=
  Directory EmptyString
    [Directory "album" [] [track] []; Directory "empty" [] [] []]
    [] [mkPlaylist "mix"].

Definition dir_0755 : file := mkFile 16877 100 None.
Definition dir_0555 : file := mkFile 16749 100 None.
Definition db_0644 : file := mkFile 33188 1000 (Some library).
Definition db_0444 : file := mkFile 33060 1000 (Some library).

Definition disk_of (files : list (string * file)) : Disk :=
  mkDisk 0 files [] 2000 None false.

(** The database file is in place. *)
Definition disk_loaded : Disk :=
  disk_of [("/var/lib/mpd", dir_0755); (db_file, db_0644)].

(** No database file yet, in a directory that can take one. *)
Definition disk_new : Disk := disk_of [("/var/lib/mpd", dir_0755)].

(** No database file, in a directory that cannot be written. *)
Definition disk_locked : Disk := disk_of [("/var/lib/mpd", dir_0555)].

(** The database file cannot be written. *)
Definition disk_readonly : Disk :=
  disk_of [("/var/lib/mpd", dir_0755); (db_file, db_0444)].

(** The database file is in place and [stat] fails for lack of memory. *)
Definition disk_stat_fault : Disk :=
  mkDisk 0 [("/var/lib/mpd", dir_0755); (db_file, db_0644)] [] 2000
         (Some ENOMEM) false.

(** The database file is in place and the disk is full. *)
Definition disk_full : Disk :=
  mkDisk 0 [("/var/lib/mpd", dir_0755); (db_file, db_0644)] [] 2000
         None true.

(** A database object on [d], before [Open]. *)
Definition closed_on (d : Disk) : State Disk := mkState db_file None 0 d [].

(** A database object serving [t] on [d], its file last seen at [m]. *)
Definition serving (t : directory) (m : Z) (d : Disk) : State Disk :=
  mkState db_file (Some t) m d [].

(** * The MikMod decoder plugin

    A shallow embedding of [src/decoder/plugins/MikmodDecoderPlugin.cxx].
    The plugin drives two libraries, libmikmod and the decoder API of the
    daemon; both are outside the file.  Every call the plugin makes is
    recorded, and the calls whose result the plugin looks at are answered
    by the library. *)

Module Mikmod.

(** A [MODULE*] that is not null. *)
Definition MODULE := nat.

(** [DecoderCommand]: the file names NONE only. *)
Inductive DecoderCommand :=
| NONE
| Command (c : nat).

Definition is_NONE (c : DecoderCommand) : bool :=
  match c with
  | NONE => true
  | Command _ => false
  end.

(** [SampleFormat]: the file names S16 only. *)
Inductive SampleFormat :=
| S16
| OtherFormat (n : nat).

Record AudioFormat := mkAudioFormat {
  sample_rate : Z;
  format : SampleFormat;
  channels : Z
}.

(** [SignedSongTime::Negative()], the duration of a song of unknown
    length. *)
Inductive SignedSongTime :=
| Negative.

Inductive TagType :=
| TAG_TITLE.

(** The format strings of the log calls, each with its arguments. *)
Inductive text :=
| InvalidSampleRate (line : Z) (rate : Z)
    (* Invalid sample rate in line %d: %u *)
| CouldNotInit (reason : string)
    (* Could not init MikMod: %s *)
| FailedToOpenMod (path_fs : string)
    (* failed to open mod: %s *)
| FailedToOpenFile (path_fs : string).
    (* Failed to open file: %s *)

(** The calls the plugin makes and the library variables it assigns; a
    [Set_] action carries the value the variable holds afterwards. *)
Inductive action :=
| Set_md_device (v : Z)
| Set_md_reverb (v : Z)
| Set_md_pansep (v : Z)
| Set_md_mixfreq (v : Z)
| Set_md_mode (v : Z)
| MikMod_RegisterDriver
| MikMod_RegisterAllLoaders
| MikMod_Init (params : string)
| MikMod_Exit
| Player_Load (path_fs : string) (maxchan : Z) (curious : bool)
| Player_Free (handle : MODULE)
| Player_LoadTitle (path_fs : string)
| MikMod_free (title : string)
| Set_loop (handle : MODULE) (v : bool)
| decoder_initialized (audio_format : AudioFormat) (seekable : bool)
                      (duration : SignedSongTime)
| Player_Start (handle : MODULE)
| Player_Active
| VC_WriteBytes (size : Z)
| decoder_data (length : Z)
| Player_Stop
| tag_handler_invoke_tag (type : TagType) (value : string)
| FormatError (t : text)
| FormatDebug (t : text)
| FormatFatalError (t : text).

(** What the file uses and does not define.  [L] is the state of the
    libraries; [react] is what a call whose result the plugin does not look
    at does to it.  [load] answers [Player_Load], [load_title] answers
    [Player_LoadTitle], [active] answers [Player_Active], [write_bytes]
    answers [VC_WriteBytes], [data] answers [decoder_data], and [init]
    answers [MikMod_Init] with whether it returned non-zero. *)
Class Library (L : Type) := {
  react : action -> L -> L;
  load : string -> Z -> bool -> L -> option MODULE * L;
  load_title : string -> L -> option string * L;
  active : L -> bool * L;
  write_bytes : Z -> L -> Z * L;
  data : Z -> L -> DecoderCommand * L;
  init : string -> L -> bool * L;
  MikMod_strerror : L -> string;
  audio_valid_sample_rate : Z -> bool;
  IsValid : AudioFormat -> bool;
  DMODE_SOFT_MUSIC : Z;
  DMODE_INTERP : Z;
  DMODE_STEREO : Z;
  DMODE_16BITS : Z
}.

(** [struct ConfigBlock], as far as the plugin reads it: the values of its
    two settings, when given, and its line. *)
Record ConfigBlock := mkBlock {
  block_loop : option bool;
  block_sample_rate : option Z;
  line : Z
}.

Definition GetBlockValue {A} (value : option A) (default_value : A) : A :=
  match value with
  | Some v => v
  | None => default_value
  end.

Definition MIKMOD_FRAME_SIZE : Z := 4096.

(** What an assignment stores in a variable of type [UWORD], the unsigned
    16 bit integer of mikmod.h: the value modulo 65536.  [md_mixfreq] and
    [md_mode] are of that type. *)
Definition UWORD (v : Z) : Z := v mod 65536.

(** The two static variables of the file, the libraries and the calls made
    so far. *)
Record Plugin (L : Type) := mkPlugin {
  mikmod_loop : bool;
  mikmod_sample_rate : Z;
  lib : L;
  calls : list action
}.

Arguments mkPlugin {L} _ _ _ _.
Arguments mikmod_loop {L} _.
Arguments mikmod_sample_rate {L} _.
Arguments lib {L} _.
Arguments calls {L} _.

(** How a function of the plugin ends: it returns; the process exits in
    [FormatFatalError]; an [assert] fails; or the loop is still running
    when the fuel is used up. *)
Inductive outcome (L A : Type) :=
| Returned (a : A) (s : Plugin L)
| Exited (s : Plugin L)
| Asserted (s : Plugin L)
| Running.

Arguments Returned {L A} _ _.
Arguments Exited {L A} _.
Arguments Asserted {L A} _.
Arguments Running {L A}.

Section Functions.

Context {L : Type} {Lib : Library L}.

Definition Run (A : Type) : Type := Plugin L -> outcome L A.

Definition pure {A} (a : A) : Run A := fun s => Returned a s.

Definition andthen {A B} (m : Run A) (k : A -> Run B) : Run B :=
  fun s => match m s with
           | Returned a s' => k a s'
           | Exited s' => Exited s'
           | Asserted s' => Asserted s'
           | Running => Running
           end.

Notation "x <- m ;; k" := (andthen m (fun x => k))
  (at level 100, m at next level, right associativity).
Notation "m ;; k" := (andthen m (fun _ => k))
  (at level 100, right associativity).

(** A call whose result is not looked at. *)
Definition do (a : action) : Run unit :=
  fun s => Returned tt (mkPlugin (mikmod_loop s) (mikmod_sample_rate s)
                                 (react a (lib s)) (calls s ++ [a])).

(** A call answered by the library. *)
Definition ask {A} (a : action) (f : L -> A * L) : Run A :=
  fun s => let (x, l) := f (lib s) in
           Returned x (mkPlugin (mikmod_loop s) (mikmod_sample_rate s) l
                                (calls s ++ [a])).

(** [FormatFatalError] logs and does not return. *)
Definition fatal {A} (t : text) : Run A :=
  fun s => Exited (mkPlugin (mikmod_loop s) (mikmod_sample_rate s)
                            (react (FormatFatalError t) (lib s))
                            (calls s ++ [FormatFatalError t])).

Definition assert (b : bool) : Run unit :=
  fun s => if b then Returned tt s else Asserted s.

Definition set_mikmod_loop (v : bool) : Run unit :=
  fun s => Returned tt (mkPlugin v (mikmod_sample_rate s) (lib s) (calls s)).

Definition set_mikmod_sample_rate (v : Z) : Run unit :=
  fun s => Returned tt (mkPlugin (mikmod_loop s) v (lib s) (calls s)).

Definition get_mikmod_loop : Run bool :=
  fun s => Returned (mikmod_loop s) s.

Definition get_mikmod_sample_rate : Run Z :=
  fun s => Returned (mikmod_sample_rate s) s.

(** ** mikmod_decoder_init *)

Definition mikmod_decoder_init (block : ConfigBlock) : Run bool :=
  let params := EmptyString in
  set_mikmod_loop (GetBlockValue (block_loop block) false) ;;
  set_mikmod_sample_rate (GetBlockValue (block_sample_rate block) 44100) ;;
  rate <- get_mikmod_sample_rate ;;
  (if negb (audio_valid_sample_rate rate)
   then fatal (InvalidSampleRate (line block) rate)
   else pure tt) ;;
  do (Set_md_device 0) ;;
  do (Set_md_reverb 0) ;;
  do MikMod_RegisterDriver ;;
  do MikMod_RegisterAllLoaders ;;
  do (Set_md_pansep 64) ;;
  rate <- get_mikmod_sample_rate ;;
  do (Set_md_mixfreq (UWORD rate)) ;;
  do (Set_md_mode (UWORD (Z.lor (Z.lor (Z.lor DMODE_SOFT_MUSIC DMODE_INTERP)
                                       DMODE_STEREO) DMODE_16BITS))) ;;
  failed <- ask (MikMod_Init params) (init params) ;;
  if failed then
    reason <- (fun s => Returned (MikMod_strerror (lib s)) s) ;;
    do (FormatError (CouldNotInit reason)) ;;
    pure false
  else pure true.

(** ** mikmod_decoder_finish *)

Definition mikmod_decoder_finish : Run unit := do MikMod_Exit.

(** ** mikmod_decoder_file_decode *)

(** The loop [while (cmd == DecoderCommand::NONE && Player_Active())]:
    [Player_Active] is not asked once a command has come. *)
Fixpoint decode_loop (fuel : nat) (cmd : DecoderCommand) : Run unit :=
  match fuel with
  | O => fun _ => Running
  | S fuel' =>
      if is_NONE cmd then
        a <- ask Player_Active active ;;
        if a then
          ret <- ask (VC_WriteBytes MIKMOD_FRAME_SIZE)
                     (write_bytes MIKMOD_FRAME_SIZE) ;;
          cmd' <- ask (decoder_data ret) (data ret) ;;
          decode_loop fuel' cmd'
        else pure tt
      else pure tt
  end.

Definition mikmod_decoder_file_decode (fuel : nat) (path_fs : string)
  : Run unit :=
  handle <- ask (Player_Load path_fs 128 false) (load path_fs 128 false) ;;
  match handle with
  | None => do (FormatError (FailedToOpenMod path_fs))
  | Some handle =>
      loop <- get_mikmod_loop ;;
      do (Set_loop handle loop) ;;
      rate <- get_mikmod_sample_rate ;;
      let audio_format := mkAudioFormat rate S16 2 in
      assert (IsValid audio_format) ;;
      do (decoder_initialized audio_format false Negative) ;;
      do (Player_Start handle) ;;
      decode_loop fuel NONE ;;
      do Player_Stop ;;
      do (Player_Free handle)
  end.

(** ** mikmod_decoder_scan_file *)

Definition mikmod_decoder_scan_file (path_fs : string) : Run bool :=
  handle <- ask (Player_Load path_fs 128 false) (load path_fs 128 false) ;;
  match handle with
  | None =>
      do (FormatDebug (FailedToOpenFile path_fs)) ;;
      pure false
  | Some handle =>
      do (Player_Free handle) ;;
      title <- ask (Player_LoadTitle path_fs) (load_title path_fs) ;;
      match title with
      | Some title =>
          do (tag_handler_invoke_tag TAG_TITLE title) ;;
          do (MikMod_free title)
      | None => pure tt
      end ;;
      pure true
  end.

(** ** What the statements speak of *)

(** One turn of the loop, as a triple of calls; [len] is what
    [VC_WriteBytes] returned. *)
Definition turn (len : Z) : list action :=
  [Player_Active; VC_WriteBytes MIKMOD_FRAME_SIZE; decoder_data len].

(** The loop stops within [n] turns on the libraries [l]: the player is
    found inactive, or [decoder_data] returns a command. *)
Fixpoint stops_within (n : nat) (l : L) : Prop :=
  match n with
  | O => False
  | S n' =>
      let (a, l1) := active l in
      a = false
      \/ let (len, l2) := write_bytes MIKMOD_FRAME_SIZE l1 in
         let (cmd, l3) := data len l2 in
         is_NONE cmd = false \/ stops_within n' l3
  end.

(** The library variables [mikmod_decoder_init] assigns and the two
    registrations, in the order of the source, for the sample rate [rate];
    [md_mixfreq] and [md_mode] hold 16 bits. *)
Definition settings (rate : Z) : list action :=
  [Set_md_device 0; Set_md_reverb 0; MikMod_RegisterDriver;
   MikMod_RegisterAllLoaders; Set_md_pansep 64; Set_md_mixfreq (UWORD rate);
   Set_md_mode (UWORD (Z.lor (Z.lor (Z.lor DMODE_SOFT_MUSIC DMODE_INTERP)
                                    DMODE_STEREO) DMODE_16BITS))].

(** The libraries after the calls [done], none of them answered. *)
Definition after (l : L) (done : list action) : L :=
  fold_left (fun l a => react a l) done l.

(** The calls of [mikmod_decoder_file_decode] before the loop. *)
Definition prelude (path_fs : string) (handle : MODULE) (s : Plugin L)
  : list action :=
  [Player_Load path_fs 128 false; Set_loop handle (mikmod_loop s);
   decoder_initialized (mkAudioFormat (mikmod_sample_rate s) S16 2)
                       false Negative;
   Player_Start handle].


End Functions.

Definition is_load (a : action) : bool :=
  match a with
  | Player_Load _ _ _ => true
  | _ => false
  end.

Definition is_free (handle : MODULE) (a : action) : bool :=
  match a with
  | Player_Free h => Nat.eqb h handle
  | _ => false
  end.

(** The calls of the decoding loop. *)
Definition is_loop_call (a : action) : bool :=
  match a with
  | Player_Active | VC_WriteBytes _ | decoder_data _ => true
  | _ => false
  end.

(** Every [VC_WriteBytes] of [tr] asks for [MIKMOD_FRAME_SIZE] bytes. *)
Definition asks_a_frame (a : action) : bool :=
  match a with
  | VC_WriteBytes size => size =? MIKMOD_FRAME_SIZE
  | _ => true
  end.

(** ** A scripted library

    One concrete pair of libraries, used to run the plugin: it knows which
    files are modules and their titles, how many turns the player stays
    active, and the commands [decoder_data] will return, NONE when the list
    is used up. *)
Record Script := mkScript {
  modules : list (string * option string);
  turns_left : nat;
  commands : list DecoderCommand;
  init_fails : bool
}.

Fixpoint find_module (p : string) (l : list (string * option string))
  : option (option string) :=
  match l with
  | [] => None
  | (q, t) :: l' => if (q =? p)%string then Some t else find_module p l'
  end.

#[global] Instance Script_Library : Library Script := {|
  react := fun _ s => s;
  load := fun p _ _ s =>
            (match find_module p (modules s) with
             | Some _ => Some 1%nat
             | None => None
             end, s);
  load_title := fun p s =>
                  (match find_module p (modules s) with
                   | Some t => t
                   | None => None
                   end, s);
  active := fun s => (negb (Nat.eqb (turns_left s) 0), s);
  write_bytes := fun size s =>
                   (size, mkScript (modules s) (Nat.pred (turns_left s))
                                   (commands s) (init_fails s));
  data := fun _ s =>
            match commands s with
            | [] => (NONE, s)
            | c :: cs =>
                (c, mkScript (modules s) (turns_left s) cs (init_fails s))
            end;
  init := fun _ s => (init_fails s, s);
  MikMod_strerror := fun _ => "Could not initialize sound hardware";
  audio_valid_sample_rate := fun r => (0 <? r) && (r <? 1073741824);
  IsValid := fun f => (0 <? sample_rate f) && (sample_rate f <? 1073741824)
                      && (1 <=? channels f) && (channels f <=? 8);
  DMODE_SOFT_MUSIC := 8;
  DMODE_INTERP := 512;
  DMODE_STEREO := 2;
  DMODE_16BITS := 1
|}.

(** A plugin before [mikmod_decoder_init], on the libraries [s]. *)
Definition unconfigured (s : Script) : Plugin Script :=
  mkPlugin false 0 s [].

(** A plugin configured for 44100 Hz without looping. *)
Definition configured (s : Script) : Plugin Script :=
  mkPlugin false 44100 s [].

Definition tune : string := "/music/tune.mod".

(** [tune] is a module with a title; the player stays active for two
    turns. *)
Definition two_turns : Script :=
  mkScript [(tune, Some "Tune")] 2 [] false.

(** [tune] is a module without title; a command comes in the first turn. *)
Definition stopped_at_once : Script :=
  mkScript [(tune, None)] 5 [Command 2] false.

(** No module at all, and [MikMod_Init] fails. *)
Definition nothing_works : Script :=
  mkScript [] 0 [] true.

End Mikmod.


(** ** Disciplines read off a trace *)

(** [lock_run held tr]: whether the lock is held after [tr], started with
    the lock [held]; none when [tr] locks a held lock or unlocks a free
    one. *)
Fixpoint lock_run (held : bool) (tr : list event) : option bool :=
  match tr with
  | [] => Some held
  | EvLock :: tr' => if held then None else lock_run true tr'
  | EvUnlock :: tr' => if held then lock_run false tr' else None
  | _ :: tr' => lock_run held tr'
  end.

(** The calls that change the tree in place, each with the tree it is
    called on. *)
Definition is_tree_op (e : event) : bool :=
  match e with
  | EvPruneEmpty _ | EvSort _ => true
  | _ => false
  end.

(** Some call of [tr] changes the tree while the database lock is not
    held, [held] telling whether it is at the start. *)
Fixpoint tree_op_unlocked (held : bool) (tr : list event) : bool :=
  match tr with
  | [] => false
  | EvLock :: tr' => tree_op_unlocked true tr'
  | EvUnlock :: tr' => tree_op_unlocked false tr'
  | e :: tr' => (negb held && is_tree_op e) || tree_op_unlocked held tr'
  end.

Definition is_lock (e : event) : bool :=
  match e with
  | EvLock | EvUnlock => true
  | _ => false
  end.

Definition is_visit (e : event) : bool :=
  match e with
  | EvVisitDirectory _ | EvVisitSong _ | EvVisitPlaylist _ => true
  | _ => false
  end.

Definition is_warning (e : event) : bool :=
  match e with
  | EvWarning _ => true
  | _ => false
  end.

(** The calls that only inspect a path. *)
Definition is_probe (e : event) : bool :=
  match e with
  | EvAccess _ _ | EvStat _ => true
  | _ => false
  end.

(** For each visitor call of [tr], in order: was the lock held? *)
Fixpoint visits_locked (held : bool) (tr : list event) : list bool :=
  match tr with
  | [] => []
  | EvLock :: tr' => visits_locked true tr'
  | EvUnlock :: tr' => visits_locked false tr'
  | e :: tr' =>
      if is_visit e then held :: visits_locked held tr'
      else visits_locked held tr'
  end.

Definition closes (fp : FILE) (e : event) : bool :=
  match e with
  | EvFclose q => Nat.eqb q fp
  | _ => false
  end.

(** The calls that read, write or test the stream [fp]. *)
Definition uses (fp : FILE) (e : event) : bool :=
  match e with
  | EvLoadInternal q | EvSaveInternal q | EvFerror q => Nat.eqb q fp
  | _ => false
  end.

(** Any call on a stream. *)
Definition on_stream (e : event) : bool :=
  match e with
  | EvFclose _ | EvLoadInternal _ | EvSaveInternal _ | EvFerror _ => true
  | _ => false
  end.

(** Some call of [tr] uses [fp] after [fp] was closed, [closed] telling
    whether it is closed at the start. *)
Fixpoint used_after_close (fp : FILE) (closed : bool) (tr : list event)
  : bool :=
  match tr with
  | [] => false
  | e :: tr' =>
      (closed && uses fp e) || used_after_close fp (closed || closes fp e) tr'
  end.

Section Database.

Context {W : Type} {Sys : System W}.

(** ** State and monad *)

Local Abbreviation State := (State W).

Definition M (A : Type) : Type := State -> option (A * State).

Definition mret {A} (a : A) : M A := fun st => Some (a, st).

Definition bind {A B} (m : M A) (k : A -> M B) : M B :=
  fun st => match m st with
            | Some (a, st') => k a st'
            | None => None
            end.

Definition abort {A} : M A := fun _ => None.

Notation "x <- m ;; k" := (bind m (fun x => k))
  (at level 100, m at next level, right associativity).
Notation "m ;; k" := (bind m (fun _ => k))
  (at level 100, right associativity).

Definition assert (b : bool) : M unit :=
  if b then mret tt else abort.

Definition get_path : M string := fun st => Some (path st, st).
Definition get_root : M (option directory) := fun st => Some (root st, st).

Definition set_root (r : option directory) : M unit :=
  fun st => Some (tt, mkState (path st) r (mtime st) (world st) (trace st)).

Definition set_mtime (t : Z) : M unit :=
  fun st => Some (tt, mkState (path st) (root st) t (world st) (trace st)).

Definition emit (e : event) : M unit :=
  fun st => Some (tt, mkState (path st) (root st) (mtime st) (world st)
                              (trace st ++ [e])).

(** [call e f]: run the outside call [f] on the world and record [e]. *)
Definition call {A} (e : event) (f : W -> A * W) : M A :=
  fun st => let (a, w) := f (world st) in
            Some (a, mkState (path st) (root st) (mtime st) w
                             (trace st ++ [e])).

Definition errno : M Z := fun st => Some (sys_errno (world st), st).

Definition access (p : string) (mode : Z) : M Z :=
  call (EvAccess p mode) (sys_access p mode).

Definition stat (p : string) : M (option stat_t) :=
  call (EvStat p) (sys_stat p).

Definition fopen (p mode : string) : M (option FILE) :=
  call (EvFopen p mode) (sys_fopen p mode).

Definition fclose (fp : FILE) : M unit :=
  call (EvFclose fp) (fun w => (tt, sys_fclose fp w)).

Definition ferror (fp : FILE) : M bool :=
  call (EvFerror fp) (sys_ferror fp).

Definition db_lock : M unit := emit EvLock.
Definition db_unlock : M unit := emit EvUnlock.
Definition g_debug (text : string) : M unit := emit (EvDebug text).
Definition g_warning (m : message) : M unit := emit (EvWarning m).

(** The root pointer dereferenced: undefined when it designates no tree. *)
Definition deref_root : M directory :=
  r <- get_root ;;
  match r with
  | Some d => mret d
  | None => abort
  end.

(** ** SimpleDatabase::Check *)

Definition Check : M ret :=
  p <- get_path ;;
  assert (negb (p =? EmptyString)%string) ;;
  (* Check if the file exists *)
  r <- access p F_OK ;;
  if negb (r =? 0) then
    let dirPath := g_path_get_dirname p in
    (* Check that the parent part of the path is a directory *)
    s <- stat dirPath ;;
    match s with
    | None =>
        e <- errno ;;
        mret (FAIL (g_set_error simple_db_quark (Code e)
                                (MsgStatParent p e)))
    | Some st =>
        if negb (S_ISDIR (st_mode st)) then
          mret (FAIL (g_set_error simple_db_quark (Code 0)
                                  (MsgParentNotDirectory p)))
        else
          (* Check if we can write to the directory *)
          a <- access dirPath (Z.lor X_OK W_OK) ;;
          if negb (a =? 0) then
            e <- errno ;;
            mret (FAIL (g_set_error simple_db_quark (Code e)
                                    (MsgCantCreate dirPath e)))
          else mret OK
    end
  else
    (* Path exists, now check if it's a regular file *)
    s <- stat p ;;
    match s with
    | None =>
        e <- errno ;;
        mret (FAIL (g_set_error simple_db_quark (Code e)
                                (MsgStatFile p e)))
    | Some st =>
        if negb (S_ISREG (st_mode st)) then
          mret (FAIL (g_set_error simple_db_quark (Code 0)
                                  (MsgNotRegular p)))
        else
          (* And check that we can write to it *)
          a <- access p (Z.lor R_OK W_OK) ;;
          if negb (a =? 0) then
            e <- errno ;;
            mret (FAIL (g_set_error simple_db_quark (Code e)
                                    (MsgCantOpenRW p e)))
          else mret OK
    end.

(** ** Tree operations that need the object or the platform *)

(** Modelled from the spec: [directory_free] (directory.c) releases the
    root and everything reachable from it; afterwards the pointer designates
    no tree. *)
Definition directory_free : M unit := set_root None.

(** Subdirectories are compared by name. *)
Definition directory_le (a b : directory) : bool := name_le (name a) (name b).

(** Modelled from the spec: [directory_sort] (directory.c) sorts every
    directory's child collections into a canonical order: subdirectories by
    name, songs and playlists in an order the implementation defines. *)
Fixpoint directory_sort (d : directory) : directory :=
  match d with
  | Directory n cs ss ps =>
      Directory n
        (sort_list directory_le (map directory_sort cs))
        (sort_list song_le ss)
        (sort_list playlist_le ps)
  end.

(** In [d] and in every directory below it, the subdirectories, the songs
    and the playlists are each in order. *)
Fixpoint all_ordered (d : directory) : bool :=
  match d with
  | Directory _ cs ss ps =>
      ordered directory_le cs && ordered song_le ss
      && ordered playlist_le ps && forallb all_ordered cs
  end.

(** [on_root ev f]: the call [f(root)] of a function that changes the tree
    in place, recorded as [ev] with the tree it is called on. *)
Definition on_root (ev : directory -> event) (f : directory -> directory)
  : M unit :=
  d <- deref_root ;;
  emit (ev d) ;;
  set_root (Some (f d)).

(** ** Visitors *)

(** A visitor is a [std::function]: empty ([None]) or a callable that may
    change the world and returns [bool] plus what it left in [*error_r]. *)
Definition Visitor (A : Type) : Type := option (A -> W -> ret * W).

Definition VisitDirectory := Visitor directory.
Definition VisitSong := Visitor song.
Definition VisitPlaylist := Visitor playlist_metadata.

Definition failed (r : ret) : bool := negb (fst r).

(** [for_each body l]: the loop over [l] that returns at the first
    element whose [body] returns [false]. *)
Fixpoint for_each {A} (body : A -> M ret) (l : list A) : M ret :=
  match l with
  | [] => mret OK
  | x :: l' =>
      r <- body x ;;
      if failed r then mret (false, snd r) else for_each body l'
  end.

Definition invoke {A} (ev : A -> event) (v : Visitor A) (x : A) : M ret :=
  match v with
  | Some f => call (ev x) (f x)
  | None => mret OK
  end.

(** Modelled from the spec: [directory::Walk] is defined outside the
    sources at hand.  For each child directory: invoke [visit_directory] (if
    supplied) on it and, if recursive, walk it; for each song that matches
    (or when there is no predicate) invoke [visit_song] (if supplied); for
    each playlist invoke [visit_playlist] (if supplied); stop at the first
    failure. *)
Fixpoint Walk (rec : bool) (filter : option locate_item_list)
         (visit_directory : VisitDirectory) (visit_song : VisitSong)
         (visit_playlist : VisitPlaylist) (d : directory) {struct d} : M ret :=
  match d with
  | Directory _ cs ss ps =>
      let fix walk_children (l : list directory) : M ret :=
        match l with
        | [] => mret OK
        | c :: l' =>
            r <- invoke EvVisitDirectory visit_directory c ;;
            if failed r then mret (false, snd r) else
            r <- (if rec
                  then Walk rec filter visit_directory visit_song
                            visit_playlist c
                  else mret OK) ;;
            if failed r then mret (false, snd r) else walk_children l'
        end in
      r <- walk_children cs ;;
      if failed r then mret (false, snd r) else
      r <- for_each (fun s => if song_matches filter s
                              then invoke EvVisitSong visit_song s
                              else mret OK) ss ;;
      if failed r then mret (false, snd r) else
      for_each (invoke EvVisitPlaylist visit_playlist) ps
  end.

(** ** SimpleDatabase::Load *)

Definition Load : M ret :=
  p <- get_path ;;
  assert (negb (p =? EmptyString)%string) ;;
  r0 <- get_root ;;
  assert (match r0 with Some _ => true | None => false end) ;;
  fp <- fopen p "r" ;;
  match fp with
  | None =>
      e <- errno ;;
      mret (FAIL (g_set_error simple_db_quark (Code e) (MsgOpenFailed p e)))
  | Some fp =>
      d <- deref_root ;;
      r <- call (EvLoadInternal fp)
                (fun w => let '(r, d', w') := db_load_internal fp d w in
                          ((r, d'), w')) ;;
      set_root (Some (snd r)) ;;
      if negb (fst (fst r)) then
        fclose fp ;;
        mret (false, snd (fst r))
      else
        fclose fp ;;
        s <- stat p ;;
        match s with
        | Some st => set_mtime (st_mtime st)
        | None => mret tt
        end ;;
        mret (true, snd (fst r))
  end.

(** ** SimpleDatabase::Open *)

Definition Open : M ret :=
  set_root (Some directory_new_root) ;;
  set_mtime 0 ;;
  r <- Load ;;
  if negb (fst r) then
    directory_free ;;
    match snd r with
    | Some error => g_warning (MsgFailedToLoad (msg error))
    | None => abort   (* error->message with error == NULL *)
    end ;;
    c <- Check ;;
    if negb (fst c) then mret (false, snd c)
    else
      set_root (Some directory_new_root) ;;
      mret (true, snd c)
  else mret OK.

(** ** SimpleDatabase::Close *)


(** ** SimpleDatabase::GetSong *)

Definition no_such_song (u : string) : GError :=
  g_set_error db_quark (DbCode DB_NOT_FOUND) (MsgNoSuchSong u).

Definition GetSong (uri : string) : M (option song * option GError) :=
  r0 <- get_root ;;
  assert (match r0 with Some _ => true | None => false end) ;;
  db_lock ;;
  d <- deref_root ;;
  let song := directory_lookup_song d uri in
  db_unlock ;;
  match song with
  | None =>
      mret (song, Some (no_such_song uri))
  | Some _ => mret (song, None)
  end.

(** ** SimpleDatabase::LookupDirectory *)

Definition LookupDirectory (uri : string) : M (option directory) :=
  r0 <- get_root ;;
  assert (match r0 with Some _ => true | None => false end) ;;
  db_lock ;;
  d <- deref_root ;;
  let directory := directory_lookup_directory d uri in
  db_unlock ;;
  mret directory.

(** ** SimpleDatabase::Visit *)

Definition no_such_directory : ret :=
  FAIL (g_set_error db_quark (DbCode DB_NOT_FOUND) MsgNoSuchDirectory).

Definition Visit (selection : DatabaseSelection)
           (visit_directory : VisitDirectory) (visit_song : VisitSong)
           (visit_playlist : VisitPlaylist) : M ret :=
  directory <- LookupDirectory (uri selection) ;;
  match directory with
  | None =>
      match visit_song with
      | Some f =>
          g <- GetSong (uri selection) ;;   (* error_r = NULL *)
          match fst g with
          | Some song =>
              if song_matches (match_ selection) song
              then call (EvVisitSong song) (f song)
              else mret no_such_directory
          | None => mret no_such_directory
          end
      | None => mret no_such_directory
      end
  | Some directory =>
      r <- (if recursive selection
            then invoke EvVisitDirectory visit_directory directory
            else mret OK) ;;
      if failed r then mret (false, snd r) else
      db_lock ;;
      r <- Walk (recursive selection) (match_ selection)
                visit_directory visit_song visit_playlist directory ;;
      db_unlock ;;
      mret r
  end.

(** ** SimpleDatabase::Save *)

Definition Save : M ret :=
  db_lock ;;
  g_debug "removing empty directories from DB" ;;
  on_root EvPruneEmpty directory_prune_empty ;;
  g_debug "sorting DB" ;;
  on_root EvSort directory_sort ;;
  db_unlock ;;
  g_debug "writing DB" ;;
  p <- get_path ;;
  fp <- fopen p "w" ;;
  match fp with
  | None =>
      e <- errno ;;
      mret (FAIL (g_set_error simple_db_quark (Code e)
                              (MsgUnableToWrite p e)))
  | Some fp =>
      d <- deref_root ;;
      call (EvSaveInternal fp) (fun w => (tt, db_save_internal fp d w)) ;;
      b <- ferror fp ;;
      if b then
        e <- errno ;;
        fclose fp ;;
        mret (FAIL (g_set_error simple_db_quark (Code e) (MsgWriteFailed e)))
      else
        fclose fp ;;
        s <- stat p ;;
        match s with
        | Some st => set_mtime (st_mtime st)
        | None => mret tt
        end ;;
        mret OK
  end.

(** ** The consistency check as the specification words it *)

(** The observations the policy is worded with; each is made on the world
    as the previous one left it. *)
Definition path_exists (p : string) (w : W) : bool * W :=
  let (r, w') := sys_access p F_OK w in (r =? 0, w').

Definition usable_as (p : string) (mode : Z) (w : W) : bool :=
  fst (sys_access p mode w) =? 0.

(** Policy of the checker: a missing path is judged by its parent
    directory, an existing path by itself. *)
Definition CheckUsable (p : string) (w : W) : check_result :=
  let (present, w1) := path_exists p w in
  if present then
    match sys_stat p w1 with
    | (None, _) => CheckError PathUnstatable
    | (Some st, w2) =>
        if negb (S_ISREG (st_mode st)) then CheckError NotRegularFile
        else if negb (usable_as p (Z.lor R_OK W_OK) w2)
             then CheckError NotReadWritable
             else CheckOk
    end
  else
    let parent := g_path_get_dirname p in
    match sys_stat parent w1 with
    | (None, _) => CheckError ParentUnstatable
    | (Some st, w2) =>
        if negb (S_ISDIR (st_mode st)) then CheckError ParentNotDirectory
        else if negb (usable_as parent (Z.lor X_OK W_OK) w2)
             then CheckError ParentNotWritable
             else CheckOk
    end.

(** ** States and traces the statements speak of *)

(** The state in which [Open] calls [Load]: a new root, [mtime] zero. *)
Definition fresh (st : State) : State :=
  mkState (path st) (Some directory_new_root) 0 (world st) (trace st).

(** The state in which [Open] calls [Check], [st] being the state a failed
    [Load] left: the tree freed and the warning logged. *)
Definition after_failed_load (st : State) (error : GError) : State :=
  mkState (path st) None (mtime st) (world st)
          (trace st ++ [EvWarning (MsgFailedToLoad (msg error))]).

Definition with_root (d : directory) (st : State) : State :=
  mkState (path st) (Some d) (mtime st) (world st) (trace st).

Definition locked_lookup (st : State) : State :=
  mkState (path st) (root st) (mtime st) (world st)
          (trace st ++ [EvLock; EvUnlock]).

(** The tree [Save] writes. *)
Definition canonical (d : directory) : directory :=
  directory_sort (directory_prune_empty d).

(** What [Save] has done on the tree [d] when it opens the file. *)
Definition save_prologue (p : string) (d : directory) : list event :=
  [EvLock; EvDebug "removing empty directories from DB"; EvPruneEmpty d;
   EvDebug "sorting DB"; EvSort (directory_prune_empty d);
   EvUnlock; EvDebug "writing DB"; EvFopen p "w"].

(** ** Computations that always return and leave the members alone *)

Definition extends (st st' : State) : Prop :=
  path st' = path st /\ root st' = root st /\ mtime st' = mtime st
  /\ exists evs, trace st' = trace st ++ evs.

Definition runs {A} (m : M A) : Prop :=
  forall st, exists a st', m st = Some (a, st') /\ extends st st'.

(** [quiet P m]: [m] always returns, leaves the members alone and adds to
    the trace only events that satisfy [P]. *)
Definition quiet {A} (P : event -> bool) (m : M A) : Prop :=
  forall st, exists a st' evs,
    m st = Some (a, st')
    /\ path st' = path st /\ root st' = root st /\ mtime st' = mtime st
    /\ trace st' = trace st ++ evs /\ forallb P evs = true.

(** A visitor was given, that is the [std::function] is not empty. *)
Definition supplied {A} (v : Visitor A) : bool :=
  match v with
  | Some _ => true
  | None => false
  end.


(** ** Running the monad *)

Ltac unfold_m :=
  unfold on_root, access, stat, fopen, fclose, ferror, db_lock, db_unlock,
    g_debug, g_warning, deref_root, directory_free, errno, assert, get_path,
    get_root,
    set_root, set_mtime, emit, call, bind, mret, abort in *.

Lemma string_eqb_nonempty (p : string) :
  p <> EmptyString -> (p =? EmptyString)%string = false.
Proof. intro H. now apply String.eqb_neq. Qed.

(** [Check] always returns when the path is set, touches no member of the
    object and adds only filesystem calls to the trace; what it returns is
    what the policy says. *)
Lemma Check_runs (st : State) :
  path st <> EmptyString ->
  exists r w evs,
    Check st = Some (r, mkState (path st) (root st) (mtime st) w
                                (trace st ++ evs))
    /\ forallb is_io evs = true
    /\ check_result_of r = Some (CheckUsable (path st) (world st)).
Proof.
  intro Hp. unfold Check, CheckUsable, path_exists, usable_as. unfold_m.
  rewrite (string_eqb_nonempty _ Hp). cbn.
  destruct (sys_access (path st) F_OK (world st)) as [a w1]. cbn.
  destruct (a =? 0); cbn.
  - destruct (sys_stat (path st) w1) as [[s|] w2]; cbn;
      [destruct (S_ISREG (st_mode s)); cbn;
       [destruct (sys_access (path st) _ w2) as [b w3]; cbn;
        destruct (b =? 0); cbn|] |];
      rewrite <- ?app_assoc; do 3 eexists;
      (split; [reflexivity|split; reflexivity]).
  - destruct (sys_stat (g_path_get_dirname (path st)) w1) as [[s|] w2]; cbn;
      [destruct (S_ISDIR (st_mode s)); cbn;
       [destruct (sys_access (g_path_get_dirname (path st)) _ w2) as [b w3];
        cbn; destruct (b =? 0); cbn|] |];
      rewrite <- ?app_assoc; do 3 eexists;
      (split; [reflexivity|split; reflexivity]).
Qed.

(** A method that asserts the path is set returns only if it is. *)
Lemma Check_returned (st : State) (r : ret) (st' : State) :
  Check st = Some (r, st') -> path st <> EmptyString.
Proof.
  intros H E. unfold Check in H. unfold_m. rewrite E in H. discriminate.
Qed.

Lemma Load_returned (st : State) (r : ret) (st' : State) :
  Load st = Some (r, st') ->
  path st <> EmptyString /\ exists d, root st = Some d.
Proof.
  intro H. unfold Load in H. unfold_m. split.
  - intro E. rewrite E in H. discriminate.
  - destruct (path st =? EmptyString)%string; [discriminate|]. cbn in H.
    destruct (root st) as [d|]; [now exists d|discriminate].
Qed.

Lemma Save_returned (st : State) (r : ret) (st' : State) :
  Save st = Some (r, st') -> exists d, root st = Some d.
Proof.
  intro H. unfold Save in H. unfold_m. cbn in H.
  destruct (root st) as [d|]; [now exists d|discriminate].
Qed.

(** [Load] returns whenever the path is set and the root designates a tree.
    It never changes the path; a failed [Load] has set the error and left
    [mtime] alone; a successful one ends with the [stat] of the path and
    stores the time it gave, if it gave one. *)
Lemma Load_runs (st : State) (d : directory) :
  path st <> EmptyString -> root st = Some d ->
  exists r st',
    Load st = Some (r, st')
    /\ path st' = path st
    /\ (fst r = false -> mtime st' = mtime st /\ snd r <> None)
    /\ (fst r = true ->
        exists w s evs,
          sys_stat (path st) w = (s, world st')
          /\ trace st' = trace st ++ evs ++ [EvStat (path st)]
          /\ mtime st' = match s with
                         | Some b => st_mtime b
                         | None => mtime st
                         end).
Proof.
  intros Hp Hr. destruct st as [p r0 m w t]; cbn in *; subst r0.
  unfold Load. unfold_m. cbn.
  rewrite (string_eqb_nonempty _ Hp). cbn.
  destruct (sys_fopen p "r" w) as [[fp|] w1]; cbn.
  - destruct (db_load_internal fp d w1) as [[[b e] d'] w2] eqn:El. cbn.
    destruct b; cbn.
    + destruct (sys_stat p (sys_fclose fp w2)) as [[s|] w3] eqn:Es; cbn;
        (do 2 eexists; split; [reflexivity|]; cbn;
         repeat split; try discriminate; intros _;
         exists (sys_fclose fp w2); eexists;
         exists [EvFopen p "r"; EvLoadInternal fp; EvFclose fp];
         rewrite Es; repeat split;
         rewrite <- !app_assoc; cbn; reflexivity).
    + do 2 eexists; split; [reflexivity|]; cbn.
      repeat split; try discriminate.
      eapply db_load_internal_sets_error; eauto.
  - do 2 eexists; split; [reflexivity|]; cbn.
    repeat split; discriminate.
Qed.

(** [Open], one call at a time. *)
Lemma Open_steps (st : State) :
  Open st =
  match Load (fresh st) with
  | Some (r, st_l) =>
      if fst r then Some (OK, st_l)
      else match snd r with
           | Some error =>
               match Check (after_failed_load st_l error) with
               | Some (c, st_c) =>
                   if fst c
                   then Some ((true, snd c), with_root directory_new_root st_c)
                   else Some ((false, snd c), st_c)
               | None => None
               end
           | None => None
           end
  | None => None
  end.
Proof.
  destruct st as [p r0 m w t].
  unfold Open, fresh, directory_free, g_warning, emit, set_root, set_mtime,
    bind, mret, abort.
  cbn -[Load Check].
  destruct (Load _) as [[[b e] st_l]|]; [|reflexivity].
  destruct b; cbn -[Check]; [reflexivity|].
  destruct e as [error|]; cbn -[Check]; [|reflexivity].
  unfold after_failed_load.
  destruct (Check _) as [[[cb ce] st_c]|]; [|reflexivity].
  destruct cb; reflexivity.
Qed.

(** What [Check] returns is either plain success or a failure with its
    error. *)
Lemma Check_ret_shape (st : State) (r : ret) (st' : State) :
  Check st = Some (r, st') -> r = OK \/ exists e, r = FAIL e.
Proof.
  intro H. destruct (String.eqb_spec (path st) EmptyString) as [E|E].
  - unfold Check in H. unfold_m. rewrite E in H. discriminate.
  - destruct (Check_runs st E) as (r0 & w & evs & Hc & _ & Hk).
    rewrite Hc in H. injection H as <- <-.
    destruct r0 as [[|] [e|]]; cbn in Hk; try discriminate;
      [left; reflexivity | right; exists e; reflexivity].
Qed.

Lemma prune_leaves_no_empty_directory (d : directory) :
  all_nonempty_below (directory_prune_empty d) = true.
Proof.
  induction d as [n cs ss ps IH] using directory_nested_ind. cbn.
  apply forallb_forall. intros c Hc.
  apply filter_In in Hc as [Hc Hne].
  apply in_map_iff in Hc as (c0 & <- & Hc0).
  rewrite Hne. cbn. rewrite Forall_forall in IH. now apply IH.
Qed.

Lemma flat_map_filter_void {A B} (f : A -> list B) (keep : A -> bool)
      (l : list A) :
  (forall x, keep x = false -> f x = []) ->
  flat_map f (filter keep l) = flat_map f l.
Proof.
  intro Hv. induction l as [|x l IH]; cbn; [reflexivity|].
  destruct (keep x) eqn:E; cbn; rewrite IH; [reflexivity|].
  now rewrite (Hv x E).
Qed.

Lemma collect_empty {A} (f : directory -> list A) (d : directory) :
  (forall d', directory_is_empty d' = true -> f d' = []) ->
  directory_is_empty d = true -> collect f d = [].
Proof.
  intros Hf He. destruct d as [n cs ss ps]. cbn.
  rewrite (Hf _ He). unfold directory_is_empty in He. cbn in He.
  destruct cs; [reflexivity|discriminate].
Qed.

(** Pruning drops directories only: whatever [f] reads off a directory's
    own songs or playlists is found in the pruned tree as before. *)
Lemma prune_keeps (A : Type) (f : directory -> list A) :
  (forall d, f (directory_prune_empty d) = f d) ->
  (forall d, directory_is_empty d = true -> f d = []) ->
  forall d, collect f (directory_prune_empty d) = collect f d.
Proof.
  intros Hp He d. induction d as [n cs ss ps IH] using directory_nested_ind.
  change (directory_prune_empty (Directory n cs ss ps))
    with (Directory n
            (filter (fun c => negb (directory_is_empty c))
                    (map directory_prune_empty cs)) ss ps).
  cbn [collect]. f_equal.
  - exact (Hp (Directory n cs ss ps)).
  - rewrite flat_map_filter_void.
    + rewrite flat_map_concat_map, map_map, <- flat_map_concat_map.
      induction IH as [|c l Hc _ IHl]; cbn; [reflexivity|].
      now rewrite Hc, IHl.
    + intros x Hx. apply collect_empty; [exact He|].
      now apply negb_false_iff.
Qed.

Lemma prune_keeps_songs (d : directory) :
  all_songs (directory_prune_empty d) = all_songs d.
Proof.
  apply prune_keeps.
  - now intros [n cs ss ps].
  - intros [n cs ss ps]; unfold directory_is_empty; cbn.
    destruct cs, ss, ps; (reflexivity || discriminate).
Qed.

Lemma prune_keeps_playlists (d : directory) :
  all_playlists (directory_prune_empty d) = all_playlists d.
Proof.
  apply prune_keeps.
  - now intros [n cs ss ps].
  - intros [n cs ss ps]; unfold directory_is_empty; cbn.
    destruct cs, ss, ps; (reflexivity || discriminate).
Qed.

Lemma insert_sorted_Permutation {A} (le : A -> A -> bool) (x : A) (l : list A) :
  Permutation (insert_sorted le x l) (x :: l).
Proof.
  induction l as [|y l IH]; cbn; [reflexivity|].
  destruct (le x y); [reflexivity|].
  rewrite IH. apply perm_swap.
Qed.

Lemma sort_list_Permutation {A} (le : A -> A -> bool) (l : list A) :
  Permutation (sort_list le l) l.
Proof.
  induction l as [|x l IH]; cbn; [reflexivity|].
  rewrite insert_sorted_Permutation. now constructor.
Qed.

Lemma forallb_Permutation {A} (f : A -> bool) (l l' : list A) :
  Permutation l l' -> forallb f l = forallb f l'.
Proof.
  induction 1; cbn; try congruence.
  now rewrite !andb_assoc, (andb_comm (f y)).
Qed.

Lemma sort_list_nil {A} (le : A -> A -> bool) (l : list A) :
  sort_list le l = [] -> l = [].
Proof.
  intro H. apply Permutation_nil. now rewrite <- H, sort_list_Permutation.
Qed.

Lemma sort_keeps_emptiness (d : directory) :
  directory_is_empty (directory_sort d) = directory_is_empty d.
Proof.
  destruct d as [n cs ss ps]. unfold directory_is_empty. cbn [directory_sort
    children songs playlists].
  destruct (sort_list _ (map directory_sort cs)) eqn:Ec.
  - apply sort_list_nil, map_eq_nil in Ec. subst cs.
    destruct (sort_list song_le ss) eqn:Es.
    + apply sort_list_nil in Es. subst ss.
      destruct (sort_list playlist_le ps) eqn:Ep.
      * apply sort_list_nil in Ep. now subst ps.
      * destruct ps; [discriminate|reflexivity].
    + destruct ss; [discriminate|reflexivity].
  - destruct cs; [discriminate|reflexivity].
Qed.

Lemma sort_keeps_all_nonempty_below (d : directory) :
  all_nonempty_below (directory_sort d) = all_nonempty_below d.
Proof.
  induction d as [n cs ss ps IH] using directory_nested_ind. cbn [directory_sort all_nonempty_below].
  rewrite (forallb_Permutation _ _ _ (sort_list_Permutation _ _)).
  induction IH as [|c l Hc _ IHl]; cbn; [reflexivity|].
  now rewrite sort_keeps_emptiness, Hc, IHl.
Qed.

Lemma extends_refl (st : State) : extends st st.
Proof.
  repeat split. exists []. now rewrite app_nil_r.
Qed.

Lemma extends_trans (a b c : State) : extends a b -> extends b c -> extends a c.
Proof.
  intros (Hp & Hr & Hm & e1 & Ht) (Hp' & Hr' & Hm' & e2 & Ht').
  repeat split; try congruence.
  exists (e1 ++ e2). now rewrite Ht', Ht, app_assoc.
Qed.

Lemma runs_mret {A} (a : A) : runs (mret a).
Proof. intro st. exists a, st. split; [reflexivity|apply extends_refl]. Qed.

Lemma runs_bind {A B} (m : M A) (k : A -> M B) :
  runs m -> (forall a, runs (k a)) -> runs (bind m k).
Proof.
  intros Hm Hk st. destruct (Hm st) as (a & st1 & E1 & X1).
  destruct (Hk a st1) as (b & st2 & E2 & X2).
  exists b, st2. unfold bind. rewrite E1. split; [exact E2|].
  eapply extends_trans; eauto.
Qed.

Lemma runs_emit (e : event) : runs (emit e).
Proof.
  intro st. do 2 eexists. split; [reflexivity|].
  repeat split. now exists [e].
Qed.

Lemma runs_call {A} (e : event) (f : W -> A * W) : runs (call e f).
Proof.
  intro st. unfold call. destruct (f (world st)) as [a w].
  do 2 eexists. split; [reflexivity|].
  repeat split. now exists [e].
Qed.

Lemma runs_invoke {A} (ev : A -> event) (v : Visitor A) (x : A) :
  runs (invoke ev v x).
Proof. destruct v; [apply runs_call|apply runs_mret]. Qed.

Lemma runs_for_each {A} (body : A -> M ret) (l : list A) :
  (forall x, runs (body x)) -> runs (for_each body l).
Proof.
  intro Hb. induction l as [|x l IH]; cbn [for_each]; [apply runs_mret|].
  apply runs_bind; [apply Hb|]. intro r.
  destruct (failed r); [apply runs_mret|exact IH].
Qed.

Lemma Walk_runs (rec : bool) (filter : option locate_item_list)
      (vd : VisitDirectory) (vs : VisitSong) (vp : VisitPlaylist)
      (d : directory) :
  runs (Walk rec filter vd vs vp d).
Proof.
  induction d as [n cs ss ps IH] using directory_nested_ind. cbn [Walk].
  apply runs_bind.
  - induction IH as [|c l Hc _ IHl]; [apply runs_mret|].
    apply runs_bind; [apply runs_invoke|]. intro r.
    destruct (failed r); [apply runs_mret|].
    apply runs_bind; [destruct rec; [exact Hc|apply runs_mret]|].
    intro r'. destruct (failed r'); [apply runs_mret|exact IHl].
  - intro r. destruct (failed r); [apply runs_mret|].
    apply runs_bind.
    + apply runs_for_each. intro s.
      destruct (song_matches filter s); [apply runs_invoke|apply runs_mret].
    + intro r'. destruct (failed r'); [apply runs_mret|].
      apply runs_for_each. intro x. apply runs_invoke.
Qed.

Lemma LookupDirectory_steps (st : State) (d : directory) (u : string) :
  root st = Some d ->
  LookupDirectory u st = Some (directory_lookup_directory d u, locked_lookup st).
Proof.
  intro Hr. destruct st as [p r0 m w t]; cbn in *; subst r0.
  unfold LookupDirectory, locked_lookup. unfold_m. cbn.
  now rewrite <- app_assoc.
Qed.

Lemma GetSong_steps (st : State) (d : directory) (u : string) :
  root st = Some d ->
  GetSong u st =
  Some ((directory_lookup_song d u,
         match directory_lookup_song d u with
         | Some _ => None
         | None => Some (no_such_song u)
         end), locked_lookup st).
Proof.
  intro Hr. destruct st as [p r0 m w t]; cbn in *; subst r0.
  unfold GetSong, locked_lookup. unfold_m. cbn.
  rewrite <- app_assoc.
  now destruct (directory_lookup_song d u).
Qed.

Lemma Save_steps (st : State) (d : directory) :
  root st = Some d ->
  Save st =
  let p := path st in
  let tr := trace st ++ save_prologue p d in
  match sys_fopen p "w" (world st) with
  | (None, w1) =>
      Some (FAIL (g_set_error simple_db_quark (Code (sys_errno w1))
                              (MsgUnableToWrite p (sys_errno w1))),
            mkState p (Some (canonical d)) (mtime st) w1 tr)
  | (Some fp, w1) =>
      let (b, w2) := sys_ferror fp (db_save_internal fp (canonical d) w1) in
      if b then
        Some (FAIL (g_set_error simple_db_quark (Code (sys_errno w2))
                                (MsgWriteFailed (sys_errno w2))),
              mkState p (Some (canonical d)) (mtime st) (sys_fclose fp w2)
                      (tr ++ [EvSaveInternal fp; EvFerror fp; EvFclose fp]))
      else
        let (s, w3) := sys_stat p (sys_fclose fp w2) in
        Some (OK,
              mkState p (Some (canonical d))
                      (match s with
                       | Some b => st_mtime b
                       | None => mtime st
                       end) w3
                      (tr ++ [EvSaveInternal fp; EvFerror fp; EvFclose fp;
                              EvStat p]))
  end.
Proof.
  intro Hr. destruct st as [p r0 m w t]; cbn in *; subst r0.
  unfold Save, canonical, save_prologue. unfold_m.
  cbn -[directory_sort directory_prune_empty].
  destruct (sys_fopen p "w" w) as [[fp|] w1];
    cbn -[directory_sort directory_prune_empty].
  - destruct (sys_ferror fp _) as [b w2];
      cbn -[directory_sort directory_prune_empty].
    destruct b; cbn -[directory_sort directory_prune_empty].
    + now rewrite <- !app_assoc.
    + destruct (sys_stat p _) as [[s|] w3];
        cbn -[directory_sort directory_prune_empty];
        now rewrite <- !app_assoc.
  - now rewrite <- !app_assoc.
Qed.

(** ** The consistency check *)

(** C5. With the path set, [Check] returns, and what it returns is what the
    policy [CheckUsable] says of the path: success exactly when the policy
    says Ok, and otherwise a failure whose message is the one of the first
    condition that failed, in the order parent unstatable, parent not a
    directory, parent not writable for a missing path, and path unstatable,
    not a regular file, not readable and writable for an existing one. *)
Theorem Check_follows_policy (st : State) :
  path st <> EmptyString ->
  exists r st',
    Check st = Some (r, st')
    /\ check_result_of r = Some (CheckUsable (path st) (world st))
    /\ (fst r = true <-> CheckUsable (path st) (world st) = CheckOk)
    /\ (forall k, CheckUsable (path st) (world st) = CheckError k ->
                  exists e, r = FAIL e /\ check_error_of e = Some k).
Proof.
  intro Hp. destruct (Check_runs st Hp) as (r & w & evs & Hc & _ & Hk).
  exists r. eexists. split; [exact Hc|]. split; [exact Hk|].
  destruct r as [[|] [e|]]; cbn in Hk; try discriminate.
  - injection Hk as Hk. split; [now split|]. intros k E. congruence.
  - destruct (check_error_of e) as [k0|] eqn:Ek; [|discriminate].
    injection Hk as Hk. split.
    + split; [discriminate|congruence].
    + intros k E. exists e. split; [reflexivity|]. congruence.
Qed.

(** C10. With the path set, [Check] returns and the state it leaves has the
    path, the root and the modification time of the state it started in;
    all it adds to the trace are filesystem calls. *)
Theorem Check_changes_no_member (st : State) :
  path st <> EmptyString ->
  exists r st',
    Check st = Some (r, st')
    /\ path st' = path st /\ root st' = root st /\ mtime st' = mtime st
    /\ exists evs, trace st' = trace st ++ evs /\ forallb is_io evs = true.
Proof.
  intro Hp. destruct (Check_runs st Hp) as (r & w & evs & Hc & Hio & _).
  exists r. eexists. split; [exact Hc|]. cbn. repeat split.
  now exists evs.
Qed.

(** ** Opening *)

(** C1. With the path set, [Open] returns.  It fails exactly when the
    [Load] it starts with fails and the [Check] it then runs fails as well;
    it then returns the failure of [Check] and its root designates no tree.
    When [Load] fails and [Check] succeeds, [Open] succeeds with a new empty
    root, and the error of [Load] is in the trace as a warning only. *)
Theorem Open_fails_iff_Load_and_Check_fail (st : State) :
  path st <> EmptyString ->
  exists load_r st_l r st',
    Load (fresh st) = Some (load_r, st_l)
    /\ Open st = Some (r, st')
    /\ (fst load_r = true -> r = OK /\ st' = st_l)
    /\ (fst load_r = false ->
        exists error check_r st_c,
          snd load_r = Some error
          /\ Check (after_failed_load st_l error) = Some (check_r, st_c)
          /\ (fst check_r = true ->
              r = OK
              /\ st' = with_root directory_new_root st_c
              /\ root st' = Some directory_new_root
              /\ In (EvWarning (MsgFailedToLoad (msg error))) (trace st'))
          /\ (fst check_r = false ->
              r = check_r /\ st' = st_c /\ root st' = None
              /\ exists e, r = FAIL e)
          /\ (fst r = false <-> fst check_r = false))
    /\ (fst r = false -> fst load_r = false).
Proof.
  intro Hp.
  destruct (Load_runs (fresh st) directory_new_root Hp eq_refl)
    as (lr & st_l & HL & Hpl & Hfail & _).
  rewrite Open_steps, HL. destruct lr as [[|] le]; cbn [fst snd] in *.
  - exists (true, le), st_l, OK, st_l. repeat split; try discriminate.
  - destruct (Hfail eq_refl) as [_ He]. destruct le as [error|]; [|easy].
    assert (Hpc : path (after_failed_load st_l error) <> EmptyString)
      by (cbn; rewrite Hpl; exact Hp).
    destruct (Check_runs _ Hpc) as (c & w & evs & Hc & _ & Hk).
    rewrite Hc. destruct c as [[|] ce]; cbn [fst snd] in *.
    + destruct ce as [e|]; [discriminate|].
      do 4 eexists. split; [reflexivity|]. split; [reflexivity|].
      split; [discriminate|]. split; [|discriminate].
      intros _. exists error. do 2 eexists.
      split; [reflexivity|]. split; [exact Hc|].
      split; [|split; [discriminate|split; discriminate]].
      intros _. repeat split. cbn.
      rewrite <- app_assoc. apply in_or_app. right. now left.
    + destruct ce as [e|]; [|discriminate].
      do 4 eexists. split; [reflexivity|]. split; [reflexivity|].
      split; [discriminate|]. split; [|reflexivity].
      intros _. exists error. do 2 eexists.
      split; [reflexivity|]. split; [exact Hc|].
      split; [discriminate|]. split; [|now split].
      intros _. repeat split. now exists e.
Qed.

(** C9. A [Load] that fails leaves the modification time as it found it;
    and when [Open] succeeds although its [Load] failed, the modification
    time is zero and the root is a new empty one. *)
Theorem failed_Load_keeps_mtime :
  (forall (st : State) r st',
      Load st = Some (r, st') -> fst r = false -> mtime st' = mtime st)
  /\ (forall (st : State) load_r st_l r st',
         Load (fresh st) = Some (load_r, st_l) -> fst load_r = false ->
         Open st = Some (r, st') -> fst r = true ->
         mtime st' = 0 /\ root st' = Some directory_new_root).
Proof.
  assert (Hload : forall (st : State) r st',
             Load st = Some (r, st') -> fst r = false -> mtime st' = mtime st).
  { intros st r st' HL Hf.
    destruct (Load_returned _ _ _ HL) as [Hp [d Hr]].
    destruct (Load_runs st d Hp Hr) as (r0 & st0 & HL0 & _ & Hfail & _).
    rewrite HL in HL0. injection HL0 as <- <-. now apply Hfail. }
  split; [exact Hload|].
  intros st lr st_l r st' HL Hf HO Hr.
  rewrite Open_steps, HL, Hf in HO.
  destruct (snd lr) as [error|]; [|discriminate].
  destruct (Check (after_failed_load st_l error)) as [[c st_c]|] eqn:Hc;
    [|discriminate].
  pose proof (Check_returned _ _ _ Hc) as Hp.
  destruct (Check_runs _ Hp) as (c0 & w & evs & Hc0 & _).
  rewrite Hc in Hc0. injection Hc0 as <- ->.
  destruct (fst c); injection HO as <- <-; [|discriminate].
  cbn. split; [|reflexivity]. now rewrite (Hload _ _ _ HL Hf).
Qed.

(** ** Saving *)

Lemma flat_map_Permutation_pointwise {A B} (f g : A -> list B) (l : list A) :
  Forall (fun x => Permutation (f x) (g x)) l ->
  Permutation (flat_map f l) (flat_map g l).
Proof.
  induction 1 as [|x l Hx _ IH]; cbn; [constructor|].
  now apply Permutation_app.
Qed.

(** Sorting reorders and nothing else: whatever [f] reads off a directory,
    up to order, is found in the sorted tree, up to order. *)
Lemma sort_keeps (A : Type) (f : directory -> list A) :
  (forall d, Permutation (f (directory_sort d)) (f d)) ->
  forall d, Permutation (collect f (directory_sort d)) (collect f d).
Proof.
  intros Hf d. induction d as [n cs ss ps IH] using directory_nested_ind.
  change (directory_sort (Directory n cs ss ps))
    with (Directory n
            (sort_list directory_le (map directory_sort cs))
            (sort_list song_le ss) (sort_list playlist_le ps)).
  cbn [collect]. apply Permutation_app.
  - exact (Hf (Directory n cs ss ps)).
  - rewrite (Permutation_flat_map _ (sort_list_Permutation _ _)).
    rewrite flat_map_concat_map, map_map, <- flat_map_concat_map.
    now apply flat_map_Permutation_pointwise.
Qed.

Lemma canonical_keeps_songs (d : directory) :
  Permutation (all_songs (canonical d)) (all_songs d).
Proof.
  unfold canonical, all_songs. rewrite sort_keeps.
  - fold all_songs. now rewrite prune_keeps_songs.
  - intros [n cs ss ps]. apply sort_list_Permutation.
Qed.

Lemma canonical_keeps_playlists (d : directory) :
  Permutation (all_playlists (canonical d)) (all_playlists d).
Proof.
  unfold canonical, all_playlists. rewrite sort_keeps.
  - fold all_playlists. now rewrite prune_keeps_playlists.
  - intros [n cs ss ps]. apply sort_list_Permutation.
Qed.

Lemma canonical_has_no_empty_directory (d : directory) :
  all_nonempty_below (canonical d) = true.
Proof.
  unfold canonical. rewrite sort_keeps_all_nonempty_below.
  apply prune_leaves_no_empty_directory.
Qed.

(** C2, as the code has it.  When [Save] fails, the path and the
    modification time are as before, and the tree is the tree from before
    the call pruned of its empty directories and sorted: pruning and sorting
    are not undone.  Every song and playlist is still in it, and a tree that
    was already pruned and sorted is unchanged. *)
Theorem failed_Save_leaves_canonical_tree (st : State) (r : ret) (st' : State) :
  Save st = Some (r, st') -> fst r = false ->
  exists d,
    root st = Some d
    /\ root st' = Some (canonical d)
    /\ path st' = path st /\ mtime st' = mtime st
    /\ Permutation (all_songs (canonical d)) (all_songs d)
    /\ Permutation (all_playlists (canonical d)) (all_playlists d)
    /\ (canonical d = d -> root st' = root st).
Proof.
  intros HS Hf. destruct (Save_returned _ _ _ HS) as [d Hd].
  exists d. split; [exact Hd|].
  assert (H : root st' = Some (canonical d)
              /\ path st' = path st /\ mtime st' = mtime st).
  { rewrite (Save_steps st d Hd) in HS. cbn zeta in HS.
    destruct (sys_fopen _ _ _) as [[fp|] w1].
    - destruct (sys_ferror _ _) as [[|] w2].
      + injection HS as <- <-. now cbn.
      + destruct (sys_stat _ _) as [s w3]. injection HS as <- <-.
        discriminate.
    - injection HS as <- <-. now cbn. }
  destruct H as (H1 & H2 & H3). repeat split; try assumption.
  - apply canonical_keeps_songs.
  - apply canonical_keeps_playlists.
  - intro E. now rewrite H1, Hd, E.
Qed.

Lemma insert_sorted_ordered {A} (le : A -> A -> bool) (x : A) (l : list A) :
  ordered le l = true -> ordered le (insert_sorted le x l) = true.
Proof.
  induction l as [|y l IH]; [reflexivity|].
  intro Hl. cbn [insert_sorted]. destruct (le x y) eqn:Exy.
  - change (in_order le x y && ordered le (y :: l) = true).
    unfold in_order. now rewrite Exy, Hl.
  - assert (Hyx : in_order le y x = true)
      by (unfold in_order; rewrite Exy; apply orb_true_r).
    destruct l as [|z l]; [cbn; now rewrite Hyx|].
    cbn [ordered] in Hl. apply andb_prop in Hl as [Hyz Hzl].
    specialize (IH Hzl). cbn [insert_sorted] in *.
    destruct (le x z); cbn [ordered] in *.
    + now rewrite Hyx, IH.
    + now rewrite Hyz, IH.
Qed.

(** What [sort_list] returns is in order, whatever [le] is. *)
Lemma sort_list_ordered {A} (le : A -> A -> bool) (l : list A) :
  ordered le (sort_list le l) = true.
Proof.
  induction l as [|x l IH]; [reflexivity|].
  cbn. now apply insert_sorted_ordered.
Qed.

(** For a total [le], two elements are in order exactly when [le] says
    so. *)
Lemma in_order_total {A} (le : A -> A -> bool) :
  (forall a b, le a b = true \/ le b a = true) ->
  forall a b, in_order le a b = le a b.
Proof.
  intros Ht a b. unfold in_order.
  destruct (le a b) eqn:Eab; [reflexivity|].
  destruct (Ht a b) as [E|E]; [congruence|now rewrite E].
Qed.

Lemma sort_orders_every_directory (d : directory) :
  all_ordered (directory_sort d) = true.
Proof.
  induction d as [n cs ss ps IH] using directory_nested_ind.
  change (directory_sort (Directory n cs ss ps))
    with (Directory n (sort_list directory_le (map directory_sort cs))
                    (sort_list song_le ss) (sort_list playlist_le ps)).
  cbn [all_ordered]. rewrite !sort_list_ordered. cbn [andb].
  rewrite (forallb_Permutation _ _ _ (sort_list_Permutation _ _)).
  apply forallb_forall. intros c Hc.
  apply in_map_iff in Hc as [c0 [<- Hc0]].
  rewrite Forall_forall in IH. now apply IH.
Qed.

(** C6. With a tree at the root, [Save] returns, and its calls are, in this
    order: lock; [directory_prune_empty] on the tree it found;
    [directory_sort] on the pruned tree; unlock; then the file is opened and
    only filesystem calls follow.  The two calls that change the tree are
    made while the lock is held, and no filesystem call is.  The tree
    [Save] leaves is the tree it found, first pruned and then sorted.
    Pruning leaves no empty directory below the root and drops no song and
    no playlist; after sorting, the subdirectories, songs and playlists of
    every directory are in order. *)
Theorem Save_prunes_sorts_then_writes (st : State) (d : directory) :
  root st = Some d ->
  exists r st' io,
    Save st = Some (r, st')
    /\ trace st' =
       trace st ++
       [EvLock; EvDebug "removing empty directories from DB";
        EvPruneEmpty d; EvDebug "sorting DB";
        EvSort (directory_prune_empty d); EvUnlock; EvDebug "writing DB";
        EvFopen (path st) "w"] ++ io
    /\ forallb is_io io = true
    /\ io_under_lock false
         ([EvLock; EvDebug "removing empty directories from DB";
           EvPruneEmpty d; EvDebug "sorting DB";
           EvSort (directory_prune_empty d); EvUnlock; EvDebug "writing DB";
           EvFopen (path st) "w"] ++ io) = false
    /\ tree_op_unlocked false
         ([EvLock; EvDebug "removing empty directories from DB";
           EvPruneEmpty d; EvDebug "sorting DB";
           EvSort (directory_prune_empty d); EvUnlock; EvDebug "writing DB";
           EvFopen (path st) "w"] ++ io) = false
    /\ root st' = Some (directory_sort (directory_prune_empty d))
    /\ all_nonempty_below (directory_prune_empty d) = true
    /\ all_nonempty_below (directory_sort (directory_prune_empty d)) = true
    /\ all_songs (directory_prune_empty d) = all_songs d
    /\ all_playlists (directory_prune_empty d) = all_playlists d
    /\ all_ordered (directory_sort (directory_prune_empty d)) = true.
Proof.
  intro Hd. rewrite (Save_steps st d Hd). cbn zeta. unfold save_prologue.
  pose proof (prune_leaves_no_empty_directory d) as Hp.
  pose proof (canonical_has_no_empty_directory d) as Hc.
  pose proof (prune_keeps_songs d) as Hs.
  pose proof (prune_keeps_playlists d) as Hl.
  pose proof (sort_orders_every_directory (directory_prune_empty d)) as Ho.
  unfold canonical in *.
  destruct (sys_fopen _ _ _) as [[fp|] w1].
  - destruct (sys_ferror _ _) as [[|] w2].
    + do 2 eexists. exists [EvSaveInternal fp; EvFerror fp; EvFclose fp].
      split; [reflexivity|]. cbn [trace root]. rewrite <- app_assoc.
      repeat split; assumption.
    + destruct (sys_stat _ _) as [s w3].
      do 2 eexists.
      exists [EvSaveInternal fp; EvFerror fp; EvFclose fp; EvStat (path st)].
      split; [reflexivity|]. cbn [trace root]. rewrite <- app_assoc.
      repeat split; assumption.
  - do 2 eexists. exists [].
    split; [reflexivity|]. cbn [trace root]. rewrite app_nil_r.
    repeat split; assumption.
Qed.

(** ** The modification time *)

(** C7, as the code has it.  A [Load] that succeeds, and a [Save] that
    succeeds, ends with a [stat] of the path.  When that [stat] succeeds the
    modification time is the [st_mtime] it returned; when it fails the
    method succeeds all the same and the modification time is left as it
    was. *)
Theorem mtime_follows_final_stat :
  (forall (st : State) r st',
      Load st = Some (r, st') -> fst r = true ->
      exists w s evs,
        sys_stat (path st) w = (s, world st')
        /\ trace st' = trace st ++ evs ++ [EvStat (path st)]
        /\ mtime st' = match s with
                       | Some b => st_mtime b
                       | None => mtime st
                       end)
  /\ (forall (st : State) r st',
         Save st = Some (r, st') -> fst r = true ->
         exists w s evs,
           sys_stat (path st) w = (s, world st')
           /\ trace st' = trace st ++ evs ++ [EvStat (path st)]
           /\ mtime st' = match s with
                          | Some b => st_mtime b
                          | None => mtime st
                          end).
Proof.
  split; intros st r st' H Hr.
  - destruct (Load_returned _ _ _ H) as [Hp [d Hd]].
    destruct (Load_runs st d Hp Hd) as (r0 & st0 & H0 & _ & _ & Hok).
    rewrite H in H0. injection H0 as <- <-. now apply Hok.
  - destruct (Save_returned _ _ _ H) as [d Hd].
    rewrite (Save_steps st d Hd) in H. cbn zeta in H.
    destruct (sys_fopen _ _ _) as [[fp|] w1].
    + destruct (sys_ferror _ _) as [[|] w2].
      * injection H as <- <-. discriminate.
      * destruct (sys_stat _ _) as [s w3] eqn:Es. injection H as <- <-.
        exists (sys_fclose fp w2), s.
        exists (save_prologue (path st) d
                  ++ [EvSaveInternal fp; EvFerror fp; EvFclose fp]).
        cbn [world trace mtime]. split; [exact Es|]. split; [|reflexivity].
        now rewrite <- !app_assoc.
    + injection H as <- <-. discriminate.
Qed.

(** ** Queries *)

(** C8. On a database with a tree at the root, [GetSong] returns, under the
    lock, what [directory_lookup_song] finds: for a uri that names no song,
    no song together with the error DB_NOT_FOUND of [db_quark]; for a uri
    that names a song, that song and no error. *)
Theorem GetSong_not_found_is_an_error (st : State) (d : directory) (u : string) :
  root st = Some d ->
  (directory_lookup_song d u = None ->
   GetSong u st = Some ((None, Some (no_such_song u)), locked_lookup st))
  /\ (forall s, directory_lookup_song d u = Some s ->
                GetSong u st = Some ((Some s, None), locked_lookup st))
  /\ code (no_such_song u) = DbCode DB_NOT_FOUND
  /\ domain (no_such_song u) = db_quark.
Proof.
  intro Hd. rewrite (GetSong_steps st d u Hd).
  repeat split.
  - now intros ->.
  - now intros s ->.
Qed.

(** The state after both lookups of [Visit]. *)
Lemma locked_lookup_twice (st : State) :
  locked_lookup (locked_lookup st) =
  mkState (path st) (root st) (mtime st) (world st)
          (trace st ++ [EvLock; EvUnlock; EvLock; EvUnlock]).
Proof. unfold locked_lookup. cbn. now rewrite <- app_assoc. Qed.


(** C4. The uri of the selection names a directory, the selection is
    recursive and a directory visitor is supplied.  [Visit] returns, and
    the first call it makes after the lookup is the visitor on that
    directory itself.  If that call fails, [Visit] returns its failure and
    nothing follows it in the trace. *)
Theorem Visit_recursive_starts_at_target (st : State) (d target : directory)
        (selection : DatabaseSelection) (f : directory -> W -> ret * W)
        (visit_song : VisitSong) (visit_playlist : VisitPlaylist) :
  root st = Some d ->
  directory_lookup_directory d (uri selection) = Some target ->
  recursive selection = true ->
  exists r st',
    Visit selection (Some f) visit_song visit_playlist st = Some (r, st')
    /\ (exists rest,
           trace st' =
           trace st ++ [EvLock; EvUnlock; EvVisitDirectory target] ++ rest)
    /\ (fst (fst (f target (world st))) = false ->
        r = fst (f target (world st))
        /\ st' = mkState (path st) (root st) (mtime st)
                         (snd (f target (world st)))
                         (trace st ++
                          [EvLock; EvUnlock; EvVisitDirectory target])).
Proof.
  intros Hd Hdir Hrec. unfold Visit, bind at 1.
  rewrite (LookupDirectory_steps st d _ Hd), Hdir, Hrec.
  unfold bind at 1, invoke, call, locked_lookup.
  cbn [world path root mtime trace].
  destruct (f target (world st)) as [[b e] w]. cbn [fst snd].
  rewrite <- app_assoc. cbn [app].
  destruct b; cbn [failed fst snd negb].
  - set (st1 := mkState _ _ _ _ _).
    assert (Hruns : runs (bind db_lock (fun _ =>
               bind (Walk true (match_ selection) (Some f) visit_song
                          visit_playlist target)
                    (fun r => bind db_unlock (fun _ => mret r))))).
    { apply runs_bind; [apply runs_emit|]. intros _.
      apply runs_bind; [apply Walk_runs|]. intro r.
      apply runs_bind; [apply runs_emit|]. intros _. apply runs_mret. }
    destruct (Hruns st1) as (r & st' & Hv & _ & _ & _ & evs & Ht).
    exists r, st'. split; [exact Hv|]. split; [|discriminate].
    exists evs. rewrite Ht. subst st1. cbn [trace].
    now rewrite <- app_assoc.
  - unfold mret. do 2 eexists. split; [reflexivity|].
    split; [exists []; reflexivity|].
    intros _. split; reflexivity.
Qed.

(** ** More on loading and opening *)

(** [Load], one call at a time. *)
Lemma Load_steps (st : State) (d : directory) :
  path st <> EmptyString -> root st = Some d ->
  Load st =
  let p := path st in
  match sys_fopen p "r" (world st) with
  | (None, w1) =>
      Some (FAIL (g_set_error simple_db_quark (Code (sys_errno w1))
                              (MsgOpenFailed p (sys_errno w1))),
            mkState p (Some d) (mtime st) w1 (trace st ++ [EvFopen p "r"]))
  | (Some fp, w1) =>
      let '(r, d', w2) := db_load_internal fp d w1 in
      if fst r then
        let (s, w3) := sys_stat p (sys_fclose fp w2) in
        Some ((true, snd r),
              mkState p (Some d')
                      (match s with
                       | Some b => st_mtime b
                       | None => mtime st
                       end) w3
                      (trace st ++ [EvFopen p "r"; EvLoadInternal fp;
                                    EvFclose fp; EvStat p]))
      else
        Some ((false, snd r),
              mkState p (Some d') (mtime st) (sys_fclose fp w2)
                      (trace st ++ [EvFopen p "r"; EvLoadInternal fp;
                                    EvFclose fp]))
  end.
Proof.
  intros Hp Hr. destruct st as [p r0 m w t]; cbn in *; subst r0.
  unfold Load. unfold_m. cbn.
  rewrite (string_eqb_nonempty _ Hp). cbn.
  destruct (sys_fopen p "r" w) as [[fp|] w1]; cbn; [|reflexivity].
  destruct (db_load_internal fp d w1) as [[[b e] d'] w2]. cbn.
  destruct b; cbn.
  - destruct (sys_stat p (sys_fclose fp w2)) as [[s|] w3]; cbn;
      now rewrite <- !app_assoc.
  - now rewrite <- !app_assoc.
Qed.

(** X1. With the path set and a tree at the root, [Load] returns.  When the
    file cannot be opened it fails with the errno the open left, without
    calling the codec and leaving tree and modification time untouched.
    When the file is opened, the codec is called once on the stream and the
    stream is closed exactly once, on success and on failure alike, and
    never used after that: the calls are [db_load_internal], then [fclose],
    and on success one [stat] of the path. *)
Theorem Load_closes_its_stream (st : State) (d : directory) :
  path st <> EmptyString -> root st = Some d ->
  exists r st' evs,
    Load st = Some (r, st')
    /\ trace st' = trace st ++ EvFopen (path st) "r" :: evs
    /\ match fst (sys_fopen (path st) "r" (world st)) with
       | Some fp =>
           length (filter (closes fp) evs) = 1%nat
           /\ length (filter (uses fp) evs) = 1%nat
           /\ used_after_close fp false evs = false
           /\ evs = EvLoadInternal fp :: EvFclose fp
                    :: (if fst r then [EvStat (path st)] else [])
       | None =>
           evs = []
           /\ r = FAIL (g_set_error simple_db_quark
                                    (Code (sys_errno (world st')))
                                    (MsgOpenFailed (path st)
                                                   (sys_errno (world st'))))
           /\ root st' = root st /\ mtime st' = mtime st
       end.
Proof.
  intros Hp Hr. rewrite (Load_steps st d Hp Hr). cbn zeta.
  destruct (sys_fopen _ _ _) as [[fp|] w1]; cbn [fst].
  - destruct (db_load_internal fp d w1) as [[[b e] d'] w2]. cbn [fst snd].
    destruct b.
    + destruct (sys_stat _ _) as [s w3].
      do 3 eexists. split; [reflexivity|]. split; [reflexivity|].
      unfold closes, uses; simpl; rewrite !Nat.eqb_refl; simpl; auto.
    + do 3 eexists. split; [reflexivity|]. split; [reflexivity|].
      unfold closes, uses; simpl; rewrite !Nat.eqb_refl; simpl.
      repeat split; reflexivity.
  - do 3 eexists. split; [reflexivity|]. split; [reflexivity|].
    cbn. now rewrite Hr.
Qed.

(** X2. With a tree at the root, [Save] returns.  When the file cannot be
    opened for writing it fails with the errno the open left and calls
    nothing on any stream.  When the file is opened, the codec is called
    once on the stream, the stream is tested once and closed exactly once,
    on success and on failure alike, and never used after that: the calls
    are [db_save_internal], then [ferror], then [fclose], and on success
    one [stat] of the path. *)
Theorem Save_closes_its_stream (st : State) (d : directory) :
  root st = Some d ->
  exists r st' evs,
    Save st = Some (r, st')
    /\ trace st' = trace st ++ save_prologue (path st) d ++ evs
    /\ match fst (sys_fopen (path st) "w" (world st)) with
       | Some fp =>
           length (filter (closes fp) evs) = 1%nat
           /\ length (filter (uses fp) evs) = 2%nat
           /\ used_after_close fp false evs = false
           /\ evs = EvSaveInternal fp :: EvFerror fp :: EvFclose fp
                    :: (if fst r then [EvStat (path st)] else [])
       | None =>
           evs = []
           /\ r = FAIL (g_set_error simple_db_quark
                                    (Code (sys_errno (world st')))
                                    (MsgUnableToWrite (path st)
                                                      (sys_errno (world st'))))
           /\ world st' = snd (sys_fopen (path st) "w" (world st))
       end.
Proof.
  intro Hr. rewrite (Save_steps st d Hr). cbn zeta.
  destruct (sys_fopen _ _ _) as [[fp|] w1]; cbn [fst snd].
  - destruct (sys_ferror _ _) as [[|] w2].
    + do 2 eexists. exists [EvSaveInternal fp; EvFerror fp; EvFclose fp].
      split; [reflexivity|].
      split; [cbn [trace]; now rewrite <- app_assoc|].
      unfold closes, uses; simpl; rewrite !Nat.eqb_refl; simpl.
      repeat split; reflexivity.
    + destruct (sys_stat _ _) as [s w3].
      do 2 eexists.
      exists [EvSaveInternal fp; EvFerror fp; EvFclose fp; EvStat (path st)].
      split; [reflexivity|].
      split; [cbn [trace]; now rewrite <- app_assoc|].
      unfold closes, uses; simpl; rewrite !Nat.eqb_refl; simpl.
      repeat split; reflexivity.
  - do 2 eexists. exists []. split; [reflexivity|].
    split; [cbn [trace]; now rewrite app_nil_r|]. now cbn.
Qed.


(** [Check], one call at a time. *)
Lemma Check_steps (st : State) :
  path st <> EmptyString ->
  Check st =
  let p := path st in
  let q := g_path_get_dirname p in
  let leave r w evs :=
    Some (r, mkState p (root st) (mtime st) w
                     (trace st ++ EvAccess p F_OK :: evs)) in
  let fail c m := FAIL (g_set_error simple_db_quark c m) in
  let (a, w1) := sys_access p F_OK (world st) in
  if a =? 0 then
    match sys_stat p w1 with
    | (None, w2) =>
        leave (fail (Code (sys_errno w2)) (MsgStatFile p (sys_errno w2)))
              w2 [EvStat p]
    | (Some s, w2) =>
        if S_ISREG (st_mode s) then
          let (b, w3) := sys_access p (Z.lor R_OK W_OK) w2 in
          if b =? 0 then
            leave OK w3 [EvStat p; EvAccess p (Z.lor R_OK W_OK)]
          else
            leave (fail (Code (sys_errno w3))
                        (MsgCantOpenRW p (sys_errno w3)))
                  w3 [EvStat p; EvAccess p (Z.lor R_OK W_OK)]
        else leave (fail (Code 0) (MsgNotRegular p)) w2 [EvStat p]
    end
  else
    match sys_stat q w1 with
    | (None, w2) =>
        leave (fail (Code (sys_errno w2)) (MsgStatParent p (sys_errno w2)))
              w2 [EvStat q]
    | (Some s, w2) =>
        if S_ISDIR (st_mode s) then
          let (b, w3) := sys_access q (Z.lor X_OK W_OK) w2 in
          if b =? 0 then
            leave OK w3 [EvStat q; EvAccess q (Z.lor X_OK W_OK)]
          else
            leave (fail (Code (sys_errno w3))
                        (MsgCantCreate q (sys_errno w3)))
                  w3 [EvStat q; EvAccess q (Z.lor X_OK W_OK)]
        else leave (fail (Code 0) (MsgParentNotDirectory p)) w2 [EvStat q]
    end.
Proof.
  intro Hp. unfold Check. unfold_m.
  rewrite (string_eqb_nonempty _ Hp). cbn.
  destruct (sys_access (path st) F_OK (world st)) as [a w1]. cbn.
  destruct (a =? 0); cbn.
  - destruct (sys_stat (path st) w1) as [[s|] w2]; cbn;
      [destruct (S_ISREG (st_mode s)); cbn;
       [destruct (sys_access (path st) _ w2) as [b w3]; cbn;
        destruct (b =? 0); cbn|] |];
      now rewrite <- ?app_assoc.
  - destruct (sys_stat (g_path_get_dirname (path st)) w1) as [[s|] w2]; cbn;
      [destruct (S_ISDIR (st_mode s)); cbn;
       [destruct (sys_access (g_path_get_dirname (path st)) _ w2) as [b w3];
        cbn; destruct (b =? 0); cbn|] |];
      now rewrite <- ?app_assoc.
Qed.

(** Case analysis on every call and test of [Check_steps]. *)
Ltac check_cases st :=
  cbn zeta;
  destruct (sys_access (path st) F_OK (world st)) as [?a ?w1];
  destruct (_ =? 0);
  [destruct (sys_stat (path st) _) as [[?s|] ?w2];
   [destruct (S_ISREG _);
    [destruct (sys_access (path st) _ _) as [?b ?w3]; destruct (_ =? 0)|]|]
  |destruct (sys_stat (g_path_get_dirname (path st)) _) as [[?s|] ?w2];
   [destruct (S_ISDIR _);
    [destruct (sys_access (g_path_get_dirname (path st)) _ _) as [?b ?w3];
     destruct (_ =? 0)|]|]].

Lemma Check_error_in_simple_db (st : State) (r : ret) (st' : State) :
  Check st = Some (r, st') ->
  forall e, snd r = Some e -> domain e = simple_db_quark.
Proof.
  intro H. pose proof (Check_returned _ _ _ H) as Hp.
  rewrite (Check_steps st Hp) in H. revert H. check_cases st;
    intro H; injection H as <- _; intros e He; cbn in He;
    try discriminate; now injection He as <-.
Qed.

(** X3. With the path set, every error [Check] returns is in the domain
    simple_db.  The two errors about the kind of a file (parent not a
    directory, not a regular file) carry code 0; every other error carries
    the errno left by the call that failed, which was the last call made.
    The messages name the database path, except the one for a parent that
    cannot be written, which names the parent directory. *)
Theorem Check_error_domain_and_code (st : State) :
  path st <> EmptyString ->
  exists r st',
    Check st = Some (r, st')
    /\ forall e, snd r = Some e ->
         fst r = false
         /\ domain e = simple_db_quark
         /\ match msg e with
            | MsgParentNotDirectory p | MsgNotRegular p =>
                p = path st /\ code e = Code 0
            | MsgStatParent p n | MsgStatFile p n | MsgCantOpenRW p n =>
                p = path st /\ n = sys_errno (world st') /\ code e = Code n
            | MsgCantCreate q n =>
                q = g_path_get_dirname (path st)
                /\ n = sys_errno (world st') /\ code e = Code n
            | _ => False
            end.
Proof.
  intro Hp. rewrite (Check_steps st Hp). check_cases st;
    (do 2 eexists; split; [reflexivity|]);
    intros e He; cbn in He; try discriminate;
    injection He as <-; cbn; auto.
Qed.

(** X4. With the path set, [Check] only probes: its first call is
    [access] on the database path with F_OK; then comes a [stat], and after
    it at most one more [access]: either both on the path itself, asking
    for read and write, or both on its parent directory, asking for search
    and write.  It succeeds only after all three calls, and it never opens,
    closes, reads or writes a stream. *)
Theorem Check_only_probes (st : State) :
  path st <> EmptyString ->
  exists r st' q m evs,
    Check st = Some (r, st')
    /\ trace st' = trace st ++ EvAccess (path st) F_OK :: EvStat q :: evs
    /\ (q = path st /\ m = Z.lor R_OK W_OK
        \/ q = g_path_get_dirname (path st) /\ m = Z.lor X_OK W_OK)
    /\ (evs = [] \/ evs = [EvAccess q m])
    /\ (fst r = true -> evs = [EvAccess q m]).
Proof.
  intro Hp. rewrite (Check_steps st Hp). check_cases st.
  all: try (exists OK; eexists; eexists; eexists; eexists;
            split; [reflexivity|]; split; [reflexivity|];
            split; [(left; split; reflexivity) || (right; split; reflexivity)|];
            split; [right; reflexivity|reflexivity]).
  all: try (eexists; eexists; eexists; eexists; eexists;
            split; [reflexivity|]; split; [reflexivity|];
            split; [(left; split; reflexivity) || (right; split; reflexivity)|];
            split; [right; reflexivity|discriminate]).
  all: eexists; eexists; eexists;
       first [exists (Z.lor R_OK W_OK), [];
              split; [reflexivity|]; split; [reflexivity|];
              split; [left; split; reflexivity|];
              split; [left; reflexivity|discriminate]
             |exists (Z.lor X_OK W_OK), [];
              split; [reflexivity|]; split; [reflexivity|];
              split; [right; split; reflexivity|];
              split; [left; reflexivity|discriminate]].
Qed.


Lemma forallb_weaken {A} (P Q : A -> bool) (l : list A) :
  (forall x, P x = true -> Q x = true) ->
  forallb P l = true -> forallb Q l = true.
Proof.
  intros H. induction l as [|x l IH]; cbn; [reflexivity|].
  intro E. apply andb_prop in E as [Ex El].
  now rewrite (H x Ex), IH.
Qed.

Lemma filter_none {A} (P Q : A -> bool) (l : list A) :
  (forall x, P x = true -> Q x = false) ->
  forallb P l = true -> filter Q l = [].
Proof.
  intros H. induction l as [|x l IH]; cbn; [reflexivity|].
  intro E. apply andb_prop in E as [Ex El].
  now rewrite (H x Ex), IH.
Qed.

(** What [Open] does, in full: the outcome of its [Load], what it leaves at
    the root, the error it returns and the events it adds. *)
Lemma Open_detail (st : State) :
  path st <> EmptyString ->
  exists load_r st_l r st' evs,
    Load (fresh st) = Some (load_r, st_l)
    /\ Open st = Some (r, st')
    /\ path st' = path st
    /\ trace st' = trace st ++ evs
    /\ forallb (fun e => is_io e || is_warning e) evs = true
    /\ length (filter is_warning evs) = (if fst load_r then 0 else 1)%nat
    /\ (fst r = true -> r = OK /\ exists d, root st' = Some d)
    /\ (fst r = false ->
        root st' = None
        /\ exists e k, r = FAIL e /\ check_error_of e = Some k
                       /\ domain e = simple_db_quark).
Proof.
  intro Hp.
  assert (Hio : forall e, is_io e = true -> is_warning e = false)
    by (now intros []).
  rewrite Open_steps, (Load_steps (fresh st) directory_new_root Hp eq_refl).
  cbn zeta. cbn [fresh path world trace mtime].
  destruct (sys_fopen _ _ _) as [[fp|] w1].
  - destruct (db_load_internal fp directory_new_root w1)
      as [[[b e] d'] w2] eqn:El. cbn [fst snd]. destruct b.
    + destruct (sys_stat _ _) as [s w3].
      do 5 eexists. split; [reflexivity|]. split; [reflexivity|].
      cbn. repeat split; try discriminate. now exists d'.
    + pose proof (db_load_internal_sets_error _ _ _ _ _ _ _ El eq_refl) as He.
      destruct e as [error|]; [|easy]. cbn [fst snd].
      set (st_l := mkState _ _ _ _ _).
      assert (Hpc : path (after_failed_load st_l error) <> EmptyString)
        by exact Hp.
      destruct (Check_runs _ Hpc) as (c & w & evs & Hc & Hevs & Hk).
      rewrite Hc.
      assert (Hw : filter is_warning evs = [])
        by (now apply (filter_none is_io)).
      assert (Hall : forallb (fun e => is_io e || is_warning e) evs = true)
        by (apply (forallb_weaken is_io); [now intros x ->|exact Hevs]).
      destruct c as [[|] [ce|]]; cbn in Hk; try discriminate; cbn [fst snd].
      * do 4 eexists.
        exists ([EvFopen (path st) "r"; EvLoadInternal fp; EvFclose fp;
                 EvWarning (MsgFailedToLoad (msg error))] ++ evs).
        split; [reflexivity|]. split; [reflexivity|]. subst st_l. cbn.
        rewrite Hw, Hall, <- !app_assoc. cbn.
        repeat split; try discriminate. now eexists.
      * destruct (check_error_of ce) as [k|] eqn:Ek; [|discriminate].
        do 4 eexists.
        exists ([EvFopen (path st) "r"; EvLoadInternal fp; EvFclose fp;
                 EvWarning (MsgFailedToLoad (msg error))] ++ evs).
        split; [reflexivity|]. split; [reflexivity|]. subst st_l. cbn.
        rewrite Hw, Hall, <- !app_assoc. cbn.
        repeat split; try discriminate. exists ce, k.
        repeat split; [exact Ek|].
        exact (Check_error_in_simple_db _ _ _ Hc ce eq_refl).
  - set (st_l := mkState _ _ _ _ _).
    set (error := g_set_error _ _ _).
    unfold FAIL. cbn [fst snd].
    assert (Hpc : path (after_failed_load st_l error) <> EmptyString)
      by exact Hp.
    destruct (Check_runs _ Hpc) as (c & w & evs & Hc & Hevs & Hk).
    rewrite Hc.
    assert (Hw : filter is_warning evs = [])
      by (now apply (filter_none is_io)).
    assert (Hall : forallb (fun e => is_io e || is_warning e) evs = true)
      by (apply (forallb_weaken is_io); [now intros x ->|exact Hevs]).
    destruct c as [[|] [ce|]]; cbn in Hk; try discriminate; cbn [fst snd].
    + do 4 eexists.
      exists ([EvFopen (path st) "r";
               EvWarning (MsgFailedToLoad (msg error))] ++ evs).
      split; [reflexivity|]. split; [reflexivity|]. subst st_l. cbn.
      rewrite Hw, Hall, <- !app_assoc. cbn.
      repeat split; try discriminate. now eexists.
    + destruct (check_error_of ce) as [k|] eqn:Ek; [|discriminate].
      do 4 eexists.
      exists ([EvFopen (path st) "r";
               EvWarning (MsgFailedToLoad (msg error))] ++ evs).
      split; [reflexivity|]. split; [reflexivity|]. subst st_l. cbn.
      rewrite Hw, Hall, <- !app_assoc. cbn.
      repeat split; try discriminate. exists ce, k.
      repeat split; [exact Ek|].
      exact (Check_error_in_simple_db _ _ _ Hc ce eq_refl).
Qed.






(** X6. With the path set, the only errors [Open] returns are those of
    the consistency check: an error comes with the return value false, is
    in the domain simple_db and is one of the six kinds of [Check].  The
    error of a failed [Load] is never returned. *)
Theorem Open_returns_only_Check_errors (st : State) :
  path st <> EmptyString ->
  exists r st',
    Open st = Some (r, st')
    /\ (fst r = false -> exists e, snd r = Some e)
    /\ (forall e, snd r = Some e ->
          fst r = false
          /\ domain e = simple_db_quark
          /\ (exists k, check_error_of e = Some k)
          /\ (forall p n, msg e <> MsgOpenFailed p n)).
Proof.
  intro Hp.
  destruct (Open_detail st Hp)
    as (lr & st_l & r & st' & evs & _ & HO & _ & _ & _ & _ & Hok & Hko).
  exists r, st'. split; [exact HO|].
  destruct r as [[|] e]; cbn [fst snd] in *.
  - destruct (Hok eq_refl) as [E _]. injection E as ->.
    split; discriminate.
  - destruct (Hko eq_refl) as (_ & e0 & k & E & Hk & Hd).
    injection E as ->. split; [now exists e0|].
    intros e1 E1. injection E1 as <-. repeat split; try assumption.
    + now exists k.
    + intros p n E. unfold check_error_of in Hk. now rewrite E in Hk.
Qed.

(** X7. With the path set, everything [Open] adds to the trace is a
    filesystem call or a warning: it never takes the database lock although
    it replaces the root, and it calls no visitor.  It logs exactly one
    warning when its [Load] failed and none when its [Load] succeeded. *)
Theorem Open_warns_once_and_never_locks (st : State) :
  path st <> EmptyString ->
  exists load_r st_l r st' evs,
    Load (fresh st) = Some (load_r, st_l)
    /\ Open st = Some (r, st')
    /\ trace st' = trace st ++ evs
    /\ filter is_lock evs = []
    /\ filter is_visit evs = []
    /\ length (filter is_warning evs) = (if fst load_r then 0 else 1)%nat
    /\ (fst r = false -> fst load_r = false)
    /\ forallb (fun e => is_io e || is_warning e) evs = true.
Proof.
  intro Hp.
  destruct (Open_detail st Hp)
    as (lr & st_l & r & st' & evs & HL & HO & _ & Ht & Hall & Hw & Hok & Hko).
  exists lr, st_l, r, st', evs. repeat split; try assumption.
  - apply (filter_none (fun e => is_io e || is_warning e));
      [now intros []|exact Hall].
  - apply (filter_none (fun e => is_io e || is_warning e));
      [now intros []|exact Hall].
  - intro Hf. destruct (fst lr) eqn:Elr; [|reflexivity].
    rewrite Open_steps, HL, Elr in HO. injection HO as <- _. discriminate.
Qed.



(** ** More on visiting *)

Lemma quiet_mret {A} (P : event -> bool) (a : A) : quiet P (mret a).
Proof.
  intro st. exists a, st, []. repeat split. now rewrite app_nil_r.
Qed.

Lemma quiet_bind {A B} (P : event -> bool) (m : M A) (k : A -> M B) :
  quiet P m -> (forall a, quiet P (k a)) -> quiet P (bind m k).
Proof.
  intros Hm Hk st.
  destruct (Hm st) as (a & st1 & e1 & E1 & Hp1 & Hr1 & Hm1 & Ht1 & Hf1).
  destruct (Hk a st1) as (b & st2 & e2 & E2 & Hp2 & Hr2 & Hm2 & Ht2 & Hf2).
  exists b, st2, (e1 ++ e2). unfold bind. rewrite E1.
  repeat split; try congruence.
  - now rewrite Ht2, Ht1, app_assoc.
  - rewrite forallb_app. now rewrite Hf1, Hf2.
Qed.

Lemma quiet_invoke {A} (ev : A -> event) (v : Visitor A) (x : A) :
  is_visit (ev x) = true -> quiet is_visit (invoke ev v x).
Proof.
  intros Hv. destruct v as [f|]; [|apply quiet_mret].
  intro st. unfold invoke, call. destruct (f x (world st)) as [r w].
  do 2 eexists. exists [ev x]. repeat split. cbn. now rewrite Hv.
Qed.

Lemma quiet_for_each {A} (P : event -> bool) (body : A -> M ret)
      (l : list A) :
  (forall x, quiet P (body x)) -> quiet P (for_each body l).
Proof.
  intro Hb. induction l as [|x l IH]; cbn [for_each]; [apply quiet_mret|].
  apply quiet_bind; [apply Hb|]. intro r.
  destruct (failed r); [apply quiet_mret|exact IH].
Qed.

(** The walk always returns, leaves the members alone and does nothing
    but call visitors. *)
Lemma Walk_quiet (rec : bool) (filter : option locate_item_list)
      (vd : VisitDirectory) (vs : VisitSong) (vp : VisitPlaylist)
      (d : directory) :
  quiet is_visit (Walk rec filter vd vs vp d).
Proof.
  induction d as [n cs ss ps IH] using directory_nested_ind. cbn [Walk].
  apply quiet_bind.
  - induction IH as [|c l Hc _ IHl]; [apply quiet_mret|].
    apply quiet_bind; [now apply quiet_invoke|]. intro r.
    destruct (failed r); [apply quiet_mret|].
    apply quiet_bind; [destruct rec; [exact Hc|apply quiet_mret]|].
    intro r'. destruct (failed r'); [apply quiet_mret|exact IHl].
  - intro r. destruct (failed r); [apply quiet_mret|].
    apply quiet_bind.
    + apply quiet_for_each. intro s.
      destruct (song_matches filter s);
        [now apply quiet_invoke|apply quiet_mret].
    + intro r'. destruct (failed r'); [apply quiet_mret|].
      apply quiet_for_each. intro x. now apply quiet_invoke.
Qed.

Lemma lock_run_locked_walk (walk : list event) :
  forallb is_visit walk = true ->
  lock_run true (walk ++ [EvUnlock]) = Some false.
Proof.
  induction walk as [|e l IH]; cbn; [reflexivity|].
  intro H. apply andb_prop in H as [He Hl].
  destruct e; try discriminate; now apply IH.
Qed.

Lemma visits_locked_walk (walk : list event) :
  forallb is_visit walk = true ->
  visits_locked true (walk ++ [EvUnlock]) = repeat true (length walk).
Proof.
  induction walk as [|e l IH]; cbn; [reflexivity|].
  intro H. apply andb_prop in H as [He Hl].
  destruct e; try discriminate; cbn; now rewrite IH.
Qed.

Lemma locked_walk_events (walk : list event) :
  forallb is_visit walk = true ->
  forallb (fun e => is_lock e || is_visit e) (walk ++ [EvUnlock]) = true.
Proof.
  intro H. rewrite forallb_app. cbn.
  rewrite (forallb_weaken is_visit _ _ (fun x Hx =>
             eq_trans (f_equal (orb (is_lock x)) Hx) (orb_true_r _)) H).
  reflexivity.
Qed.

(** What [Visit] adds to the trace. *)
Lemma Visit_events (st : State) (d : directory)
      (selection : DatabaseSelection) (visit_directory : VisitDirectory)
      (visit_song : VisitSong) (visit_playlist : VisitPlaylist) :
  root st = Some d ->
  exists r st' evs,
    Visit selection visit_directory visit_song visit_playlist st
    = Some (r, st')
    /\ path st' = path st /\ root st' = root st /\ mtime st' = mtime st
    /\ trace st' = trace st ++ EvLock :: EvUnlock :: evs
    /\ match directory_lookup_directory d (uri selection) with
       | None =>
           evs = []
           \/ evs = [EvLock; EvUnlock]
           \/ exists s, evs = [EvLock; EvUnlock; EvVisitSong s]
                        /\ supplied visit_song = true
       | Some target =>
           exists walk,
             forallb is_visit walk = true
             /\ if recursive selection && supplied visit_directory
                then evs = [EvVisitDirectory target] /\ fst r = false
                     \/ evs = EvVisitDirectory target :: EvLock
                                :: walk ++ [EvUnlock]
                else evs = EvLock :: walk ++ [EvUnlock]
       end.
Proof.
  intro Hd.
  assert (Hd' : root (locked_lookup st) = Some d) by exact Hd.
  unfold Visit, bind at 1.
  rewrite (LookupDirectory_steps st d _ Hd).
  destruct (directory_lookup_directory d (uri selection)) as [target|].
  - assert (Hwalk : forall st1 : State, exists r st' walk,
               bind db_lock (fun _ =>
                 bind (Walk (recursive selection) (match_ selection)
                            visit_directory visit_song visit_playlist target)
                      (fun r => bind db_unlock (fun _ => mret r))) st1
               = Some (r, st')
               /\ path st' = path st1 /\ root st' = root st1
               /\ mtime st' = mtime st1
               /\ trace st' = trace st1 ++ EvLock :: walk ++ [EvUnlock]
               /\ forallb is_visit walk = true).
    { intro st1. unfold bind at 1, db_lock, emit. unfold bind at 1.
      destruct (Walk_quiet (recursive selection) (match_ selection)
                  visit_directory visit_song visit_playlist target
                  (mkState (path st1) (root st1) (mtime st1) (world st1)
                           (trace st1 ++ [EvLock])))
        as (r & st2 & walk & E & Hp & Hr & Hm & Ht & Hf).
      rewrite E. unfold bind, db_unlock, emit, mret.
      do 2 eexists. exists walk. split; [reflexivity|]. cbn in *.
      repeat split; try assumption.
      rewrite Ht, <- !app_assoc. reflexivity. }
    unfold bind at 1.
    destruct (recursive selection); cbn [andb].
    + destruct visit_directory as [f|]; cbn [supplied invoke].
      * unfold call, locked_lookup. cbn [world path root mtime trace].
        destruct (f target (world st)) as [[b e] w].
        destruct b; cbn [failed fst snd negb].
        -- destruct (Hwalk (mkState (path st) (root st) (mtime st) w
                       ((trace st ++ [EvLock; EvUnlock]) ++
                        [EvVisitDirectory target])))
             as (r & st' & walk & E & Hp & Hr & Hm & Ht & Hf).
           rewrite E. exists r, st'. eexists.
           split; [reflexivity|]. cbn in *.
           repeat split; try assumption.
           ++ rewrite Ht, <- !app_assoc. reflexivity.
           ++ exists walk. split; [exact Hf|]. now right.
        -- do 3 eexists. split; [reflexivity|]. cbn.
           repeat split.
           ++ rewrite <- !app_assoc. reflexivity.
           ++ exists []. split; [reflexivity|]. now left.
      * unfold mret at 1. cbn [failed fst OK negb].
        destruct (Hwalk (locked_lookup st))
          as (r & st' & walk & E & Hp & Hr & Hm & Ht & Hf).
        rewrite E. exists r, st'. eexists.
        split; [reflexivity|]. cbn in *.
        repeat split; try assumption.
        -- rewrite Ht, <- !app_assoc. reflexivity.
        -- exists walk. split; [exact Hf|]. reflexivity.
    + unfold mret at 1. cbn [failed fst OK negb].
      destruct (Hwalk (locked_lookup st))
        as (r & st' & walk & E & Hp & Hr & Hm & Ht & Hf).
      rewrite E. exists r, st'. eexists.
      split; [reflexivity|]. cbn in *.
      repeat split; try assumption.
      * rewrite Ht, <- !app_assoc. reflexivity.
      * exists walk. split; [exact Hf|]. reflexivity.
  - destruct visit_song as [f|].
    + unfold bind. rewrite (GetSong_steps _ d _ Hd'). cbn [fst snd].
      rewrite locked_lookup_twice.
      destruct (directory_lookup_song d (uri selection)) as [s|].
      * destruct (song_matches (match_ selection) s).
        -- unfold call. cbn [world path root mtime trace].
           destruct (f s (world st)) as [r w].
           do 3 eexists. split; [reflexivity|]. cbn.
           repeat split.
           ++ rewrite <- !app_assoc. reflexivity.
           ++ right. right. now exists s.
        -- do 3 eexists. split; [reflexivity|]. cbn.
           repeat split. right. now left.
      * do 3 eexists. split; [reflexivity|]. cbn.
        repeat split. right. now left.
    + do 3 eexists. split; [reflexivity|]. cbn.
      repeat split. now left.
Qed.


(** X9. On a database with a tree, [Visit] returns, whatever the selection
    and the visitors.  It takes the lock only when the lock is free and has
    released it when it returns, also when a visitor failed.  It makes no
    filesystem call and logs nothing, and leaves path, root and modification
    time as they were. *)
Theorem Visit_releases_the_lock (st : State) (d : directory)
        (selection : DatabaseSelection) (visit_directory : VisitDirectory)
        (visit_song : VisitSong) (visit_playlist : VisitPlaylist) :
  root st = Some d ->
  exists r st' evs,
    Visit selection visit_directory visit_song visit_playlist st
    = Some (r, st')
    /\ path st' = path st /\ root st' = root st /\ mtime st' = mtime st
    /\ trace st' = trace st ++ evs
    /\ lock_run false evs = Some false
    /\ forallb (fun e => is_lock e || is_visit e) evs = true.
Proof.
  intro Hd.
  destruct (Visit_events st d selection visit_directory visit_song
              visit_playlist Hd)
    as (r & st' & evs & E & Hp & Hr & Hm & Ht & Hshape).
  exists r, st', (EvLock :: EvUnlock :: evs).
  split; [exact E|]. repeat split; try assumption.
  - destruct (directory_lookup_directory d (uri selection)) as [target|].
    + destruct Hshape as (walk & Hw & Hcase).
      destruct (recursive selection && supplied visit_directory).
      * destruct Hcase as [[-> _]| ->]; [reflexivity|].
        cbn. now apply lock_run_locked_walk.
      * subst evs. cbn. now apply lock_run_locked_walk.
    + destruct Hshape as [->|[->|[s [-> _]]]]; reflexivity.
  - destruct (directory_lookup_directory d (uri selection)) as [target|].
    + destruct Hshape as (walk & Hw & Hcase).
      destruct (recursive selection && supplied visit_directory).
      * destruct Hcase as [[-> _]| ->]; [reflexivity|].
        cbn. now apply locked_walk_events.
      * subst evs. cbn. now apply locked_walk_events.
    + destruct Hshape as [->|[->|[s [-> _]]]]; reflexivity.
Qed.

(** X10. On a database with a tree, the visitors [Visit] calls itself run
    with the lock released: the song visitor for a uri that names a song,
    and the directory visitor on the target of a recursive selection.  All
    the calls the walk makes come after these and run with the lock held. *)
Theorem Visit_calls_outside_and_under_the_lock (st : State) (d : directory)
        (selection : DatabaseSelection) (visit_directory : VisitDirectory)
        (visit_song : VisitSong) (visit_playlist : VisitPlaylist) :
  root st = Some d ->
  exists r st' evs,
    Visit selection visit_directory visit_song visit_playlist st
    = Some (r, st')
    /\ trace st' = trace st ++ evs
    /\ match directory_lookup_directory d (uri selection) with
       | None =>
           visits_locked false evs = []
           \/ visits_locked false evs = [false] /\ supplied visit_song = true
       | Some _ =>
           exists n,
             visits_locked false evs =
             (if recursive selection && supplied visit_directory
              then [false] else []) ++ repeat true n
       end.
Proof.
  intro Hd.
  destruct (Visit_events st d selection visit_directory visit_song
              visit_playlist Hd)
    as (r & st' & evs & E & Hp & Hr & Hm & Ht & Hshape).
  exists r, st', (EvLock :: EvUnlock :: evs).
  split; [exact E|]. split; [exact Ht|].
  destruct (directory_lookup_directory d (uri selection)) as [target|].
  - destruct Hshape as (walk & Hw & Hcase).
    destruct (recursive selection && supplied visit_directory).
    + destruct Hcase as [[-> _]| ->]; [now exists 0%nat|].
      exists (length walk). cbn. now rewrite visits_locked_walk.
    + subst evs. exists (length walk). cbn. now rewrite visits_locked_walk.
  - destruct Hshape as [->|[->|[s [-> Hs]]]]; [now left|now left|].
    right. now split.
Qed.


End Database.

(** ** The theorems at work on the small disk *)

(** C5 on a disk whose directory cannot be written: parent not writable. *)
Lemma Check_follows_policy_witness :
  path (closed_on disk_locked) <> EmptyString
  /\ exists r st',
       Check (closed_on disk_locked) = Some (r, st')
       /\ check_result_of r
          = Some (CheckUsable (path (closed_on disk_locked))
                              (world (closed_on disk_locked)))
       /\ (fst r = true <->
           CheckUsable (path (closed_on disk_locked))
                       (world (closed_on disk_locked)) = CheckOk)
       /\ (forall k,
              CheckUsable (path (closed_on disk_locked))
                          (world (closed_on disk_locked)) = CheckError k ->
              exists e, r = FAIL e /\ check_error_of e = Some k).
Proof.
  assert (H : path (closed_on disk_locked) <> EmptyString)
    by (vm_compute; discriminate).
  split; [exact H|]. exact (Check_follows_policy (closed_on disk_locked) H).
Defined.

(** C10 on a disk with the database file in place. *)
Lemma Check_changes_no_member_witness :
  path (serving library 1000 disk_loaded) <> EmptyString
  /\ exists r st',
       Check (serving library 1000 disk_loaded) = Some (r, st')
       /\ path st' = path (serving library 1000 disk_loaded)
       /\ root st' = root (serving library 1000 disk_loaded)
       /\ mtime st' = mtime (serving library 1000 disk_loaded)
       /\ exists evs,
            trace st' = trace (serving library 1000 disk_loaded) ++ evs
            /\ forallb is_io evs = true.
Proof.
  assert (H : path (serving library 1000 disk_loaded) <> EmptyString)
    by (vm_compute; discriminate).
  split; [exact H|].
  exact (Check_changes_no_member (serving library 1000 disk_loaded) H).
Defined.

(** C1 on a disk without database file whose directory cannot be written:
    [Load] fails, [Check] fails, [Open] fails. *)
Lemma Open_fails_iff_Load_and_Check_fail_witness :
  path (closed_on disk_locked) <> EmptyString
  /\ exists load_r st_l r st',
       Load (fresh (closed_on disk_locked)) = Some (load_r, st_l)
       /\ Open (closed_on disk_locked) = Some (r, st')
       /\ (fst load_r = true -> r = OK /\ st' = st_l)
       /\ (fst load_r = false ->
           exists error check_r st_c,
             snd load_r = Some error
             /\ Check (after_failed_load st_l error) = Some (check_r, st_c)
             /\ (fst check_r = true ->
                 r = OK
                 /\ st' = with_root directory_new_root st_c
                 /\ root st' = Some directory_new_root
                 /\ In (EvWarning (MsgFailedToLoad (msg error))) (trace st'))
             /\ (fst check_r = false ->
                 r = check_r /\ st' = st_c /\ root st' = None
                 /\ exists e, r = FAIL e)
             /\ (fst r = false <-> fst check_r = false))
       /\ (fst r = false -> fst load_r = false).
Proof.
  assert (H : path (closed_on disk_locked) <> EmptyString)
    by (vm_compute; discriminate).
  split; [exact H|].
  exact (Open_fails_iff_Load_and_Check_fail (closed_on disk_locked) H).
Defined.

(** [Open] on the three disks: the file loads; no file but a usable
    directory, so an empty tree and a warning; no file and a directory that
    cannot be written, so the error of [Check] and no tree. *)
Example Open_loads :
  option_map (fun x => (fst x, root (snd x), mtime (snd x)))
             (Open (closed_on disk_loaded))
  = Some (OK, Some library, 1000).
Proof. vm_compute. reflexivity. Qed.

Example Open_falls_back :
  option_map (fun x => (fst x, root (snd x), mtime (snd x), trace (snd x)))
             (Open (closed_on disk_new))
  = Some (OK, Some directory_new_root, 0,
          [EvFopen db_file "r";
           EvWarning (MsgFailedToLoad (MsgOpenFailed db_file ENOENT));
           EvAccess db_file F_OK; EvStat "/var/lib/mpd";
           EvAccess "/var/lib/mpd" 3]).
Proof. vm_compute. reflexivity. Qed.

Example Open_gives_up :
  option_map (fun x => (fst x, root (snd x)))
             (Open (closed_on disk_locked))
  = Some (FAIL (g_set_error simple_db_quark (Code EACCES)
                            (MsgCantCreate "/var/lib/mpd" EACCES)),
          None).
Proof. vm_compute. reflexivity. Qed.

(** C9: a [Load] that finds no file leaves the time 500 it found, and
    [Open] on the disk without file ends with time zero. *)
Lemma failed_Load_keeps_mtime_witness :
  (exists r st',
      Load (serving library 500 disk_new) = Some (r, st')
      /\ fst r = false
      /\ mtime st' = mtime (serving library 500 disk_new))
  /\ (exists load_r st_l r st',
         Load (fresh (closed_on disk_new)) = Some (load_r, st_l)
         /\ fst load_r = false
         /\ Open (closed_on disk_new) = Some (r, st')
         /\ fst r = true
         /\ mtime st' = 0 /\ root st' = Some directory_new_root).
Proof.
  split.
  - destruct (Load (serving library 500 disk_new)) as [[r st']|] eqn:HL;
      [|vm_compute in HL; discriminate].
    assert (Hf : fst r = false)
      by (vm_compute in HL; injection HL as <- _; reflexivity).
    exists r, st'. split; [reflexivity|]. split; [exact Hf|].
    exact (proj1 failed_Load_keeps_mtime _ r st' HL Hf).
  - destruct (Load (fresh (closed_on disk_new))) as [[lr st_l]|] eqn:HL;
      [|vm_compute in HL; discriminate].
    destruct (Open (closed_on disk_new)) as [[r st']|] eqn:HO;
      [|vm_compute in HO; discriminate].
    assert (Hf : fst lr = false)
      by (vm_compute in HL; injection HL as <- _; reflexivity).
    assert (Hr : fst r = true)
      by (vm_compute in HO; injection HO as <- _; reflexivity).
    exists lr, st_l, r, st'. repeat split; try assumption.
    + exact (proj1 (proj2 failed_Load_keeps_mtime _ lr st_l r st' HL Hf HO Hr)).
    + exact (proj2 (proj2 failed_Load_keeps_mtime _ lr st_l r st' HL Hf HO Hr)).
Defined.

(** Against C2 as the specification words it: on a disk whose database
    file cannot be written [Save] fails, and the directory that held nothing
    is gone from the tree all the same. *)
Lemma failed_Save_changes_the_tree :
  exists r st',
    Save (serving library_with_empty 1000 disk_readonly) = Some (r, st')
    /\ r = FAIL (g_set_error simple_db_quark (Code EACCES)
                             (MsgUnableToWrite db_file EACCES))
    /\ root (serving library_with_empty 1000 disk_readonly)
       = Some library_with_empty
    /\ root st' = Some library
    /\ root st' <> root (serving library_with_empty 1000 disk_readonly).
Proof.
  do 2 eexists. split; [vm_compute; reflexivity|].
  repeat split. cbn. discriminate.
Qed.

(** C2 as the code has it, on the same disk. *)
Lemma failed_Save_leaves_canonical_tree_witness :
  exists r st',
    Save (serving library_with_empty 1000 disk_readonly) = Some (r, st')
    /\ fst r = false
    /\ exists d,
         root (serving library_with_empty 1000 disk_readonly) = Some d
         /\ root st' = Some (canonical d)
         /\ path st' = path (serving library_with_empty 1000 disk_readonly)
         /\ mtime st' = mtime (serving library_with_empty 1000 disk_readonly)
         /\ Permutation (all_songs (canonical d)) (all_songs d)
         /\ Permutation (all_playlists (canonical d)) (all_playlists d)
         /\ (canonical d = d ->
             root st' = root (serving library_with_empty 1000 disk_readonly)).
Proof.
  destruct (Save (serving library_with_empty 1000 disk_readonly))
    as [[r st']|] eqn:HS; [|vm_compute in HS; discriminate].
  assert (Hf : fst r = false)
    by (vm_compute in HS; injection HS as <- _; reflexivity).
  exists r, st'. split; [reflexivity|]. split; [exact Hf|].
  exact (failed_Save_leaves_canonical_tree _ r st' HS Hf).
Defined.

(** C6 on a disk with the database file in place. *)
Lemma Save_prunes_sorts_then_writes_witness :
  root (serving library_with_empty 1000 disk_loaded) = Some library_with_empty
  /\ exists r st' io,
       Save (serving library_with_empty 1000 disk_loaded) = Some (r, st')
       /\ trace st' =
          trace (serving library_with_empty 1000 disk_loaded) ++
          [EvLock; EvDebug "removing empty directories from DB";
           EvPruneEmpty library_with_empty; EvDebug "sorting DB";
           EvSort (directory_prune_empty library_with_empty); EvUnlock;
           EvDebug "writing DB";
           EvFopen (path (serving library_with_empty 1000 disk_loaded)) "w"]
          ++ io
       /\ forallb is_io io = true
       /\ io_under_lock false
            ([EvLock; EvDebug "removing empty directories from DB";
              EvPruneEmpty library_with_empty; EvDebug "sorting DB";
              EvSort (directory_prune_empty library_with_empty); EvUnlock;
              EvDebug "writing DB";
              EvFopen (path (serving library_with_empty 1000 disk_loaded)) "w"]
             ++ io) = false
       /\ tree_op_unlocked false
            ([EvLock; EvDebug "removing empty directories from DB";
              EvPruneEmpty library_with_empty; EvDebug "sorting DB";
              EvSort (directory_prune_empty library_with_empty); EvUnlock;
              EvDebug "writing DB";
              EvFopen (path (serving library_with_empty 1000 disk_loaded)) "w"]
             ++ io) = false
       /\ root st'
          = Some (directory_sort (directory_prune_empty library_with_empty))
       /\ all_nonempty_below (directory_prune_empty library_with_empty) = true
       /\ all_nonempty_below
            (directory_sort (directory_prune_empty library_with_empty)) = true
       /\ all_songs (directory_prune_empty library_with_empty)
          = all_songs library_with_empty
       /\ all_playlists (directory_prune_empty library_with_empty)
          = all_playlists library_with_empty
       /\ all_ordered
            (directory_sort (directory_prune_empty library_with_empty)) = true.
Proof.
  split; [reflexivity|].
  exact (Save_prunes_sorts_then_writes
           (serving library_with_empty 1000 disk_loaded)
           library_with_empty eq_refl).
Defined.

Example Save_writes_the_pruned_tree :
  option_map (fun x => (fst x, root (snd x), mtime (snd x),
                        option_map f_tree
                          (lookup_file db_file (d_files (world (snd x))))))
             (Save (serving library_with_empty 1000 disk_loaded))
  = Some (OK, Some library, 2000, Some (Some library)).
Proof. vm_compute. reflexivity. Qed.

(** [Save] on a tree that is out of order and holds an empty directory:
    the tree it leaves has lost that directory and is in order, and both
    calls were made under the lock. *)
Example Save_sorts_the_tree :
  option_map
    (fun x => (root (snd x), firstn 6 (trace (snd x))))
    (Save (serving
             (Directory EmptyString
                [Directory "b" [] [track] []; Directory "empty" [] [] [];
                 Directory "a" [] [] [mkPlaylist "x"]]
                [] [mkPlaylist "mix"; mkPlaylist "art"])
             1000 disk_loaded))
  = Some (Some (Directory EmptyString
                  [Directory "a" [] [] [mkPlaylist "x"];
                   Directory "b" [] [track] []]
                  [] [mkPlaylist "art"; mkPlaylist "mix"]),
          [EvLock; EvDebug "removing empty directories from DB";
           EvPruneEmpty
             (Directory EmptyString
                [Directory "b" [] [track] []; Directory "empty" [] [] [];
                 Directory "a" [] [] [mkPlaylist "x"]]
                [] [mkPlaylist "mix"; mkPlaylist "art"]);
           EvDebug "sorting DB";
           EvSort
             (Directory EmptyString
                [Directory "b" [] [track] [];
                 Directory "a" [] [] [mkPlaylist "x"]]
                [] [mkPlaylist "mix"; mkPlaylist "art"]);
           EvUnlock]).
Proof. vm_compute. reflexivity. Qed.

(** Against C7 as the specification words it: [stat] can fail although the
    file could be read or written.  [Load] and [Save] then succeed and keep
    the time 500 they found, while the file on the disk has time 1000, and
    2000 once rewritten. *)
Lemma success_with_stale_mtime :
  (exists st',
      Load (serving library 500 disk_stat_fault) = Some (OK, st')
      /\ option_map f_mtime (lookup_file db_file (d_files (world st')))
         = Some 1000
      /\ mtime st' = 500)
  /\ (exists st',
         Save (serving library 500 disk_stat_fault) = Some (OK, st')
         /\ option_map f_mtime (lookup_file db_file (d_files (world st')))
            = Some 2000
         /\ mtime st' = 500).
Proof.
  split; eexists; (split; [vm_compute; reflexivity|]); split; reflexivity.
Qed.

(** C7 as the code has it, on a disk where [stat] works. *)
Lemma mtime_follows_final_stat_witness :
  (exists r st',
      Load (serving library 500 disk_loaded) = Some (r, st')
      /\ fst r = true
      /\ mtime st' = 1000
      /\ exists w s evs,
           sys_stat (path (serving library 500 disk_loaded)) w
           = (s, world st')
           /\ trace st' =
              trace (serving library 500 disk_loaded) ++ evs ++
              [EvStat (path (serving library 500 disk_loaded))]
           /\ mtime st' = match s with
                          | Some b => st_mtime b
                          | None => mtime (serving library 500 disk_loaded)
                          end)
  /\ (exists r st',
         Save (serving library 500 disk_loaded) = Some (r, st')
         /\ fst r = true
         /\ mtime st' = 2000
         /\ exists w s evs,
              sys_stat (path (serving library 500 disk_loaded)) w
              = (s, world st')
              /\ trace st' =
                 trace (serving library 500 disk_loaded) ++ evs ++
                 [EvStat (path (serving library 500 disk_loaded))]
              /\ mtime st' = match s with
                             | Some b => st_mtime b
                             | None => mtime (serving library 500 disk_loaded)
                             end).
Proof.
  split.
  - destruct (Load (serving library 500 disk_loaded)) as [[r st']|] eqn:H;
      [|vm_compute in H; discriminate].
    assert (Hr : fst r = true)
      by (vm_compute in H; injection H as <- _; reflexivity).
    assert (Hm : mtime st' = 1000)
      by (vm_compute in H; injection H as _ <-; reflexivity).
    exists r, st'. split; [reflexivity|]. split; [exact Hr|].
    split; [exact Hm|].
    exact (proj1 mtime_follows_final_stat _ r st' H Hr).
  - destruct (Save (serving library 500 disk_loaded)) as [[r st']|] eqn:H;
      [|vm_compute in H; discriminate].
    assert (Hr : fst r = true)
      by (vm_compute in H; injection H as <- _; reflexivity).
    assert (Hm : mtime st' = 2000)
      by (vm_compute in H; injection H as _ <-; reflexivity).
    exists r, st'. split; [reflexivity|]. split; [exact Hr|].
    split; [exact Hm|].
    exact (proj2 mtime_follows_final_stat _ r st' H Hr).
Defined.

(** C8 on the sample library, for a uri that names no song. *)
Lemma GetSong_not_found_is_an_error_witness :
  root (serving library 1000 disk_loaded) = Some library
  /\ directory_lookup_song library "album/nothing.ogg" = None
  /\ GetSong "album/nothing.ogg" (serving library 1000 disk_loaded)
     = Some ((None, Some (no_such_song "album/nothing.ogg")),
             locked_lookup (serving library 1000 disk_loaded))
  /\ directory_lookup_song library "album/track.ogg" = Some track
  /\ GetSong "album/track.ogg" (serving library 1000 disk_loaded)
     = Some ((Some track, None),
             locked_lookup (serving library 1000 disk_loaded)).
Proof.
  assert (Hr : root (serving library 1000 disk_loaded) = Some library)
    by reflexivity.
  assert (Hn : directory_lookup_song library "album/nothing.ogg" = None)
    by (vm_compute; reflexivity).
  assert (Hs : directory_lookup_song library "album/track.ogg" = Some track)
    by (vm_compute; reflexivity).
  split; [exact Hr|]. split; [exact Hn|]. split; [|split; [exact Hs|]].
  - exact (proj1 (GetSong_not_found_is_an_error
                    (serving library 1000 disk_loaded) library
                    "album/nothing.ogg" Hr) Hn).
  - exact (proj1 (proj2 (GetSong_not_found_is_an_error
                           (serving library 1000 disk_loaded) library
                           "album/track.ogg" Hr)) track Hs).
Defined.


(** C4 on the sample library: a recursive selection of the directory
    album and a directory visitor that fails. *)
Lemma Visit_recursive_starts_at_target_witness :
  root (serving library 1000 disk_loaded) = Some library
  /\ directory_lookup_directory library "album"
     = Some (Directory "album" [] [track] [])
  /\ exists r st',
       Visit (mkSelection "album" true None)
             (Some (fun _ w => ((false, None), w)))
             (Some (fun _ w => (OK, w))) None
             (serving library 1000 disk_loaded) = Some (r, st')
       /\ (exists rest,
              trace st' =
              trace (serving library 1000 disk_loaded) ++
              [EvLock; EvUnlock;
               EvVisitDirectory (Directory "album" [] [track] [])] ++ rest)
       /\ r = (false, None)
       /\ st' = mkState db_file (Some library) 1000 disk_loaded
                        [EvLock; EvUnlock;
                         EvVisitDirectory (Directory "album" [] [track] [])].
Proof.
  assert (Hr : root (serving library 1000 disk_loaded) = Some library)
    by reflexivity.
  assert (Hd : directory_lookup_directory library "album"
               = Some (Directory "album" [] [track] []))
    by (vm_compute; reflexivity).
  split; [exact Hr|]. split; [exact Hd|].
  destruct (Visit_recursive_starts_at_target
              (serving library 1000 disk_loaded) library
              (Directory "album" [] [track] [])
              (mkSelection "album" true None)
              (fun _ w => ((false, None), w))
              (Some (fun _ w => (OK, w))) None Hr Hd eq_refl)
    as (r & st' & Hv & Hrest & Hfail).
  exists r, st'. split; [exact Hv|]. split; [exact Hrest|].
  exact (Hfail eq_refl).
Defined.

(** A recursive walk of the whole sample library, every visitor
    succeeding. *)
Example Visit_walks_everything :
  option_map (fun x => (fst x, trace (snd x)))
             (Visit (mkSelection EmptyString true None)
                    (Some (fun _ w => (OK, w))) (Some (fun _ w => (OK, w)))
                    (Some (fun _ w => (OK, w)))
                    (serving library 1000 disk_loaded))
  = Some (OK,
          [EvLock; EvUnlock; EvVisitDirectory library; EvLock;
           EvVisitDirectory (Directory "album" [] [track] []);
           EvVisitSong track; EvVisitPlaylist (mkPlaylist "mix"); EvUnlock]).
Proof. vm_compute. reflexivity. Qed.

(** ** More of the database at work on the small disk *)

(** X1, where the file is in place. *)
Lemma Load_closes_its_stream_witness :
  path (serving library 500 disk_loaded) <> EmptyString
  /\ root (serving library 500 disk_loaded) = Some library
  /\ exists r st' evs,
       Load (serving library 500 disk_loaded) = Some (r, st')
       /\ trace st' = EvFopen db_file "r" :: evs
       /\ length (filter (closes 0%nat) evs) = 1%nat
       /\ length (filter (uses 0%nat) evs) = 1%nat
       /\ used_after_close 0%nat false evs = false
       /\ evs = EvLoadInternal 0%nat :: EvFclose 0%nat
                :: (if fst r then [EvStat db_file] else []).
Proof.
  assert (Hp : path (serving library 500 disk_loaded) <> EmptyString)
    by (vm_compute; discriminate).
  split; [exact Hp|]. split; [reflexivity|].
  destruct (Load_closes_its_stream (serving library 500 disk_loaded) library
              Hp eq_refl) as (r & st' & evs & HL & Ht & Hs).
  exists r, st', evs. split; [exact HL|]. split; [exact Ht|]. exact Hs.
Defined.

Example Load_without_file :
  option_map (fun x => (fst x, root (snd x), mtime (snd x), trace (snd x)))
             (Load (serving library 500 disk_new))
  = Some (FAIL (g_set_error simple_db_quark (Code ENOENT)
                            (MsgOpenFailed db_file ENOENT)),
          Some library, 500, [EvFopen db_file "r"]).
Proof. vm_compute. reflexivity. Qed.

(** X2, where the disk is full: the write fails, the stream is closed. *)
Lemma Save_closes_its_stream_witness :
  root (serving library 1000 disk_full) = Some library
  /\ exists r st' evs,
       Save (serving library 1000 disk_full) = Some (r, st')
       /\ trace st' = save_prologue db_file library ++ evs
       /\ length (filter (closes 0%nat) evs) = 1%nat
       /\ length (filter (uses 0%nat) evs) = 2%nat
       /\ used_after_close 0%nat false evs = false
       /\ evs = EvSaveInternal 0%nat :: EvFerror 0%nat :: EvFclose 0%nat
                :: (if fst r then [EvStat db_file] else []).
Proof.
  split; [reflexivity|].
  destruct (Save_closes_its_stream (serving library 1000 disk_full) library
              eq_refl) as (r & st' & evs & HS & Ht & Hs).
  exists r, st', evs. split; [exact HS|]. split; [exact Ht|]. exact Hs.
Defined.

Example Save_on_a_full_disk :
  option_map (fun x => (fst x, trace (snd x)))
             (Save (serving library 1000 disk_full))
  = Some (FAIL (g_set_error simple_db_quark (Code ENOSPC)
                            (MsgWriteFailed ENOSPC)),
          save_prologue db_file library
          ++ [EvSaveInternal 0%nat; EvFerror 0%nat; EvFclose 0%nat]).
Proof. vm_compute. reflexivity. Qed.

(** X3, where the directory cannot be written. *)
Lemma Check_error_domain_and_code_witness :
  path (closed_on disk_locked) <> EmptyString
  /\ exists r st',
       Check (closed_on disk_locked) = Some (r, st')
       /\ forall e, snd r = Some e ->
            fst r = false
            /\ domain e = simple_db_quark
            /\ match msg e with
               | MsgParentNotDirectory p | MsgNotRegular p =>
                   p = path (closed_on disk_locked) /\ code e = Code 0
               | MsgStatParent p n | MsgStatFile p n | MsgCantOpenRW p n =>
                   p = path (closed_on disk_locked)
                   /\ n = sys_errno (world st') /\ code e = Code n
               | MsgCantCreate q n =>
                   q = g_path_get_dirname (path (closed_on disk_locked))
                   /\ n = sys_errno (world st') /\ code e = Code n
               | _ => False
               end.
Proof.
  assert (Hp : path (closed_on disk_locked) <> EmptyString)
    by (vm_compute; discriminate).
  split; [exact Hp|].
  exact (Check_error_domain_and_code (closed_on disk_locked) Hp).
Defined.

(** X4, where the file is in place. *)
Lemma Check_only_probes_witness :
  path (serving library 1000 disk_loaded) <> EmptyString
  /\ exists r st' q m evs,
       Check (serving library 1000 disk_loaded) = Some (r, st')
       /\ trace st' =
          trace (serving library 1000 disk_loaded)
          ++ EvAccess (path (serving library 1000 disk_loaded)) F_OK
          :: EvStat q :: evs
       /\ (q = path (serving library 1000 disk_loaded)
           /\ m = Z.lor R_OK W_OK
           \/ q = g_path_get_dirname (path (serving library 1000 disk_loaded))
              /\ m = Z.lor X_OK W_OK)
       /\ (evs = [] \/ evs = [EvAccess q m])
       /\ (fst r = true -> evs = [EvAccess q m]).
Proof.
  assert (Hp : path (serving library 1000 disk_loaded) <> EmptyString)
    by (vm_compute; discriminate).
  split; [exact Hp|].
  exact (Check_only_probes (serving library 1000 disk_loaded) Hp).
Defined.

Example Check_of_a_usable_file :
  option_map (fun x => (fst x, trace (snd x)))
             (Check (serving library 1000 disk_loaded))
  = Some (OK, [EvAccess db_file F_OK; EvStat db_file; EvAccess db_file 6]).
Proof. vm_compute. reflexivity. Qed.


(** X6, where there is no file and the directory cannot be written. *)
Lemma Open_returns_only_Check_errors_witness :
  path (closed_on disk_locked) <> EmptyString
  /\ exists r st',
       Open (closed_on disk_locked) = Some (r, st')
       /\ (fst r = false -> exists e, snd r = Some e)
       /\ (forall e, snd r = Some e ->
             fst r = false
             /\ domain e = simple_db_quark
             /\ (exists k, check_error_of e = Some k)
             /\ (forall p n, msg e <> MsgOpenFailed p n)).
Proof.
  assert (Hp : path (closed_on disk_locked) <> EmptyString)
    by (vm_compute; discriminate).
  split; [exact Hp|].
  exact (Open_returns_only_Check_errors (closed_on disk_locked) Hp).
Defined.

(** X7, where there is no file yet. *)
Lemma Open_warns_once_and_never_locks_witness :
  path (closed_on disk_new) <> EmptyString
  /\ exists load_r st_l r st' evs,
       Load (fresh (closed_on disk_new)) = Some (load_r, st_l)
       /\ Open (closed_on disk_new) = Some (r, st')
       /\ trace st' = trace (closed_on disk_new) ++ evs
       /\ filter is_lock evs = []
       /\ filter is_visit evs = []
       /\ length (filter is_warning evs) = (if fst load_r then 0 else 1)%nat
       /\ (fst r = false -> fst load_r = false)
       /\ forallb (fun e => is_io e || is_warning e) evs = true.
Proof.
  assert (Hp : path (closed_on disk_new) <> EmptyString)
    by (vm_compute; discriminate).
  split; [exact Hp|].
  exact (Open_warns_once_and_never_locks (closed_on disk_new) Hp).
Defined.


(** X9 and X10, on a recursive selection of the whole sample library with
    visitors that succeed. *)
Lemma Visit_releases_the_lock_witness :
  root (serving library 1000 disk_loaded) = Some library
  /\ exists r st' evs,
       Visit (mkSelection EmptyString true None)
             (Some (fun _ w => (OK, w))) (Some (fun _ w => (OK, w))) None
             (serving library 1000 disk_loaded) = Some (r, st')
       /\ path st' = path (serving library 1000 disk_loaded)
       /\ root st' = root (serving library 1000 disk_loaded)
       /\ mtime st' = mtime (serving library 1000 disk_loaded)
       /\ trace st' = trace (serving library 1000 disk_loaded) ++ evs
       /\ lock_run false evs = Some false
       /\ forallb (fun e => is_lock e || is_visit e) evs = true.
Proof.
  split; [reflexivity|].
  exact (Visit_releases_the_lock (serving library 1000 disk_loaded) library
           (mkSelection EmptyString true None)
           (Some (fun _ w => (OK, w))) (Some (fun _ w => (OK, w))) None
           eq_refl).
Defined.

Lemma Visit_calls_outside_and_under_the_lock_witness :
  root (serving library 1000 disk_loaded) = Some library
  /\ exists r st' evs,
       Visit (mkSelection EmptyString true None)
             (Some (fun _ w => (OK, w))) (Some (fun _ w => (OK, w))) None
             (serving library 1000 disk_loaded) = Some (r, st')
       /\ trace st' = trace (serving library 1000 disk_loaded) ++ evs
       /\ match directory_lookup_directory library
                  (uri (mkSelection EmptyString true None)) with
          | None =>
              visits_locked false evs = []
              \/ visits_locked false evs = [false]
                 /\ supplied (Some (fun (_ : song) (w : Disk) => (OK, w)))
                    = true
          | Some _ =>
              exists n,
                visits_locked false evs =
                (if recursive (mkSelection EmptyString true None)
                    && supplied (Some (fun (_ : directory) (w : Disk) =>
                                         (OK, w)))
                 then [false] else []) ++ repeat true n
          end.
Proof.
  split; [reflexivity|].
  exact (Visit_calls_outside_and_under_the_lock
           (serving library 1000 disk_loaded) library
           (mkSelection EmptyString true None)
           (Some (fun _ w => (OK, w))) (Some (fun _ w => (OK, w))) None
           eq_refl).
Defined.

Example Visit_locks_the_walk_only :
  option_map (fun x => visits_locked false (trace (snd x)))
             (Visit (mkSelection EmptyString true None)
                    (Some (fun _ w => (OK, w))) (Some (fun _ w => (OK, w)))
                    None (serving library 1000 disk_loaded))
  = Some [false; true; true].
Proof. vm_compute. reflexivity. Qed.

(** * The MikMod decoder plugin: what it does *)

Module MikmodTheory.

Import Mikmod.

Section Facts.

Context {L : Type} {Lib : Library L}.

Ltac run_plugin :=
  unfold mikmod_decoder_init, mikmod_decoder_file_decode,
    mikmod_decoder_scan_file, mikmod_decoder_finish, do, ask, fatal,
    Mikmod.assert, set_mikmod_loop, set_mikmod_sample_rate, get_mikmod_loop,
    get_mikmod_sample_rate, andthen, pure in *.

(** X11. When the sample rate of the block, or 44100 when the block gives
    none, is not a valid sample rate, [mikmod_decoder_init] does not return:
    the process exits in [FormatFatalError], which names the line and the
    rate, before any variable of the library is assigned and before any
    call to the library. *)
Theorem init_exits_on_an_invalid_sample_rate (block : ConfigBlock)
        (s : Plugin L) :
  audio_valid_sample_rate (GetBlockValue (block_sample_rate block) 44100)
  = false ->
  exists s',
    mikmod_decoder_init block s = Exited s'
    /\ calls s' =
       calls s ++
       [FormatFatalError
          (InvalidSampleRate (line block)
             (GetBlockValue (block_sample_rate block) 44100))].
Proof.
  intro H. run_plugin. cbn. rewrite H. cbn. eexists. split; reflexivity.
Qed.

(** A value is stored unchanged in a [UWORD] exactly when it is at least 0
    and below 65536. *)
Lemma UWORD_keeps (v : Z) : UWORD v = v <-> 0 <= v < 65536.
Proof.
  unfold UWORD. split.
  - intros <-. apply Z.mod_pos_bound. lia.
  - intro H. now apply Z.mod_small.
Qed.

(** X12. When the sample rate is valid, [mikmod_decoder_init] returns.  It
    has stored the two settings, false and 44100 standing in for the ones
    the block does not give; it has assigned the library variables and
    registered driver and loaders once each, in the order of the source;
    and it returns true exactly when [MikMod_Init], called last with empty
    parameters, returned zero.  When it returns false it has logged one
    error and nothing else.  [md_mixfreq] and [md_mode] hold 16 bits:
    [md_mixfreq] is left with the sample rate modulo 65536, which is the
    sample rate exactly when that is below 65536, while the plugin keeps
    the whole rate. *)
Theorem init_configures_the_library (block : ConfigBlock) (s : Plugin L) :
  audio_valid_sample_rate (GetBlockValue (block_sample_rate block) 44100)
  = true ->
  exists b s',
    mikmod_decoder_init block s = Returned b s'
    /\ mikmod_loop s' = GetBlockValue (block_loop block) false
    /\ mikmod_sample_rate s' = GetBlockValue (block_sample_rate block) 44100
    /\ b = negb (fst (init EmptyString
                           (after (lib s)
                                  (settings (mikmod_sample_rate s')))))
    /\ calls s' =
       calls s ++
       [Set_md_device 0; Set_md_reverb 0; MikMod_RegisterDriver;
        MikMod_RegisterAllLoaders; Set_md_pansep 64;
        Set_md_mixfreq (mikmod_sample_rate s' mod 65536);
        Set_md_mode
          (Z.lor (Z.lor (Z.lor DMODE_SOFT_MUSIC DMODE_INTERP) DMODE_STEREO)
                 DMODE_16BITS mod 65536)]
       ++ MikMod_Init EmptyString
       :: (if b then []
           else [FormatError
                   (CouldNotInit
                      (MikMod_strerror
                         (snd (init EmptyString
                                 (after (lib s)
                                    (settings (mikmod_sample_rate s')))))))])
    /\ (mikmod_sample_rate s' mod 65536 = mikmod_sample_rate s'
        <-> 0 <= mikmod_sample_rate s' < 65536).
Proof.
  intro H. run_plugin. cbn. rewrite H. cbn.
  destruct (init EmptyString _) as [[|] l] eqn:E; cbn.
  - do 2 eexists. split; [reflexivity|]. cbn.
    unfold after, settings. cbn. rewrite E. cbn.
    split; [reflexivity|]. split; [reflexivity|]. split; [reflexivity|].
    split; [now rewrite <- !app_assoc|apply UWORD_keeps].
  - do 2 eexists. split; [reflexivity|]. cbn.
    unfold after, settings. cbn. rewrite E. cbn.
    split; [reflexivity|]. split; [reflexivity|]. split; [reflexivity|].
    split; [now rewrite <- !app_assoc|apply UWORD_keeps].
Qed.

(** Whenever [mikmod_decoder_init] returns, the sample rate it has stored
    is the one of the block, or 44100, and it is valid; the loop flag is
    the one of the block, or false. *)
Lemma init_returned (block : ConfigBlock) (s : Plugin L) (b : bool)
      (s' : Plugin L) :
  mikmod_decoder_init block s = Returned b s' ->
  audio_valid_sample_rate (mikmod_sample_rate s') = true
  /\ mikmod_sample_rate s' = GetBlockValue (block_sample_rate block) 44100
  /\ mikmod_loop s' = GetBlockValue (block_loop block) false.
Proof.
  intro H. run_plugin. cbn in H.
  destruct (audio_valid_sample_rate
              (GetBlockValue (block_sample_rate block) 44100)) eqn:Ev;
    cbn in H; [|discriminate].
  destruct (init EmptyString _) as [[|] l]; cbn in H;
    injection H as _ <-; cbn; auto.
Qed.

(** The calls of a run of the loop: whole turns, then possibly one last
    question to the player. *)
Lemma decode_loop_calls (fuel : nat) (cmd : DecoderCommand) (s s' : Plugin L) :
  decode_loop fuel cmd s = Returned tt s' ->
  mikmod_loop s' = mikmod_loop s
  /\ mikmod_sample_rate s' = mikmod_sample_rate s
  /\ exists lens last,
       calls s' = calls s ++ flat_map turn lens ++ last
       /\ (last = [] \/ last = [Player_Active])
       /\ (is_NONE cmd = false -> lens = [] /\ last = []).
Proof.
  revert cmd s. induction fuel as [|fuel IH]; intros cmd s H; cbn in H;
    [discriminate|].
  destruct (is_NONE cmd) eqn:Ec.
  - run_plugin. destruct (active (lib s)) as [[|] l1]; cbn in H.
    + destruct (write_bytes MIKMOD_FRAME_SIZE l1) as [len l2]. cbn in H.
      destruct (data len l2) as [cmd' l3]. cbn in H.
      apply IH in H. cbn in H.
      destruct H as (Hl & Hr & lens & last & Hc & Hlast & _).
      repeat split; try assumption.
      exists (len :: lens), last. split; [|split; [exact Hlast|discriminate]].
      rewrite Hc, <- !app_assoc. reflexivity.
    + injection H as <-. repeat split.
      exists [], [Player_Active]. cbn. split; [reflexivity|].
      split; [now right|discriminate].
  - run_plugin. injection H as <-. repeat split.
    exists [], []. rewrite app_nil_r. repeat split. now left.
Qed.

(** More fuel does not change what a finished loop did. *)
Lemma decode_loop_more_fuel (fuel extra : nat) (cmd : DecoderCommand)
      (s s' : Plugin L) :
  decode_loop fuel cmd s = Returned tt s' ->
  decode_loop (fuel + extra) cmd s = Returned tt s'.
Proof.
  revert cmd s. induction fuel as [|fuel IH]; intros cmd s H; cbn in *;
    [discriminate|].
  destruct (is_NONE cmd); [|exact H].
  run_plugin. destruct (active (lib s)) as [[|] l1]; cbn in *; [|exact H].
  destruct (write_bytes MIKMOD_FRAME_SIZE l1) as [len l2]. cbn in *.
  destruct (data len l2) as [cmd' l3]. cbn in *. now apply IH.
Qed.

(** A loop that stops within [n] turns returns on [n] turns of fuel and
    one more. *)
Lemma decode_loop_stops (n : nat) (s : Plugin L) :
  stops_within n (lib s) ->
  exists s', decode_loop (S n) NONE s = Returned tt s'.
Proof.
  revert s. induction n as [|n IH]; intros s H; [easy|].
  cbn in H. change (decode_loop (S (S n)) NONE s)
    with (andthen (ask Player_Active active)
            (fun a => if a then
               andthen (ask (VC_WriteBytes MIKMOD_FRAME_SIZE)
                            (write_bytes MIKMOD_FRAME_SIZE))
                 (fun ret => andthen (ask (decoder_data ret) (data ret))
                    (fun cmd' => decode_loop (S n) cmd'))
             else pure tt) s).
  unfold andthen at 1, ask at 1.
  destruct (active (lib s)) as [[|] l1]; [|unfold pure; eauto].
  unfold andthen at 1, ask at 1. cbn [lib].
  destruct (write_bytes MIKMOD_FRAME_SIZE l1) as [len l2].
  unfold andthen at 1, ask at 1. cbn [lib].
  destruct (data len l2) as [cmd l3].
  destruct cmd as [|c]; [|cbn; unfold pure; eauto].
  destruct H as [H|[H|H]]; try discriminate.
  now apply IH.
Qed.

(** X13. [mikmod_decoder_scan_file] always returns, and returns true
    exactly when [Player_Load] gave a module, with or without a title.  The
    module is freed at once, before the title is asked for.  When there is a
    title the tag handler is called once, with TAG_TITLE and that title,
    and the title is freed after it; when there is none the handler is not
    called.  When the file is no module one debug message is all that
    follows.  The settings of the plugin are not touched. *)
Theorem scan_file_reports_a_module (path_fs : string) (s : Plugin L) :
  exists b s',
    mikmod_decoder_scan_file path_fs s = Returned b s'
    /\ mikmod_loop s' = mikmod_loop s
    /\ mikmod_sample_rate s' = mikmod_sample_rate s
    /\ match load path_fs 128 false (lib s) with
       | (None, _) =>
           b = false
           /\ calls s' = calls s ++ [Player_Load path_fs 128 false;
                                     FormatDebug (FailedToOpenFile path_fs)]
       | (Some handle, l1) =>
           b = true
           /\ calls s' =
              calls s ++
              [Player_Load path_fs 128 false; Player_Free handle;
               Player_LoadTitle path_fs] ++
              match fst (load_title path_fs (react (Player_Free handle) l1))
              with
              | Some title =>
                  [tag_handler_invoke_tag TAG_TITLE title; MikMod_free title]
              | None => []
              end
       end.
Proof.
  run_plugin. destruct (load path_fs 128 false (lib s)) as [[h|] l1]; cbn.
  - destruct (load_title path_fs _) as [[t|] l2]; cbn;
      do 2 eexists; (split; [reflexivity|]); cbn;
      repeat split; now rewrite <- !app_assoc.
  - do 2 eexists. split; [reflexivity|]. cbn.
    repeat split. now rewrite <- !app_assoc.
Qed.

(** [mikmod_decoder_file_decode] after a successful [Player_Load], as the
    loop in the state the prelude leaves, followed by stop and free. *)
Lemma file_decode_steps (fuel : nat) (path_fs : string) (s : Plugin L)
      (handle : MODULE) (l1 : L) :
  load path_fs 128 false (lib s) = (Some handle, l1) ->
  IsValid (mkAudioFormat (mikmod_sample_rate s) S16 2) = true ->
  mikmod_decoder_file_decode fuel path_fs s =
  match decode_loop fuel NONE
          (mkPlugin (mikmod_loop s) (mikmod_sample_rate s)
             (after l1 (tl (prelude path_fs handle s)))
             (calls s ++ prelude path_fs handle s))
  with
  | Returned _ s1 =>
      Returned tt
        (mkPlugin (mikmod_loop s1) (mikmod_sample_rate s1)
           (after (lib s1) [Player_Stop; Player_Free handle])
           (calls s1 ++ [Player_Stop; Player_Free handle]))
  | Exited s1 => Exited s1
  | Asserted s1 => Asserted s1
  | Running => Running
  end.
Proof.
  intros Hl Hv. unfold mikmod_decoder_file_decode, andthen at 1, ask.
  rewrite Hl. run_plugin. cbn. rewrite Hv. cbn.
  rewrite <- !app_assoc. cbn.
  destruct (decode_loop fuel NONE _) as [[] s1|s1|s1|]; try reflexivity.
  cbn. now rewrite <- !app_assoc.
Qed.

(** On a module and an audio format that is not valid the assertion
    fails, after the module is loaded and its loop flag set. *)
Lemma file_decode_asserts (fuel : nat) (path_fs : string) (s : Plugin L)
      (handle : MODULE) (l1 : L) :
  load path_fs 128 false (lib s) = (Some handle, l1) ->
  IsValid (mkAudioFormat (mikmod_sample_rate s) S16 2) = false ->
  mikmod_decoder_file_decode fuel path_fs s =
  Asserted
    (mkPlugin (mikmod_loop s) (mikmod_sample_rate s)
       (react (Set_loop handle (mikmod_loop s)) l1)
       (calls s ++ [Player_Load path_fs 128 false;
                    Set_loop handle (mikmod_loop s)])).
Proof.
  intros Hl Hv. unfold mikmod_decoder_file_decode, andthen at 1, ask.
  rewrite Hl. run_plugin. cbn. rewrite Hv. now rewrite <- !app_assoc.
Qed.

Lemma file_decode_no_module (fuel : nat) (path_fs : string) (s : Plugin L)
      (l1 : L) :
  load path_fs 128 false (lib s) = (None, l1) ->
  mikmod_decoder_file_decode fuel path_fs s =
  Returned tt
    (mkPlugin (mikmod_loop s) (mikmod_sample_rate s)
       (react (FormatError (FailedToOpenMod path_fs)) l1)
       (calls s ++ [Player_Load path_fs 128 false;
                    FormatError (FailedToOpenMod path_fs)])).
Proof.
  intro Hl. unfold mikmod_decoder_file_decode, andthen at 1, ask.
  rewrite Hl. run_plugin. cbn. now rewrite <- !app_assoc.
Qed.

Lemma decode_loop_never_exits (fuel : nat) (cmd : DecoderCommand)
      (s : Plugin L) :
  (forall s', decode_loop fuel cmd s <> Exited s')
  /\ (forall s', decode_loop fuel cmd s <> Asserted s').
Proof.
  revert cmd s. induction fuel as [|fuel IH]; intros cmd s; cbn;
    [split; discriminate|].
  destruct (is_NONE cmd); [|split; discriminate].
  run_plugin. destruct (active (lib s)) as [[|] l1]; cbn;
    [|split; discriminate].
  destruct (write_bytes MIKMOD_FRAME_SIZE l1) as [len l2]. cbn.
  destruct (data len l2) as [cmd' l3]. cbn. apply IH.
Qed.

(** X14. [mikmod_decoder_file_decode] never ends in [FormatFatalError].
    It ends in its failed assertion exactly when the file is a module and
    the audio format made of the plugin's sample rate, 16 bit samples and two
    channels is not valid; by then it has loaded the module and set its loop
    flag and made no other call: the decoder is not initialized, the player
    not started and the module not freed.  When it returns and the file was
    no module, it has logged one error and has not initialized the decoder.
    When it returns and the file was a module, the audio format was valid
    and its calls are, in this order: the loop flag of the module set to the
    plugin's setting; [decoder_initialized] with the plugin's sample rate,
    16 bit samples, two channels, not seekable, duration unknown;
    [Player_Start]; whole turns of the loop, each asking the player whether
    it is active, then [VC_WriteBytes] for a full frame, then
    [decoder_data]; possibly one last question to the player; and then
    [Player_Stop] and [Player_Free] on the module, once each. *)
Theorem file_decode_calls (fuel : nat) (path_fs : string) (s : Plugin L) :
  (forall s', mikmod_decoder_file_decode fuel path_fs s <> Exited s')
  /\ ((exists s', mikmod_decoder_file_decode fuel path_fs s = Asserted s')
      <-> (exists handle,
              fst (load path_fs 128 false (lib s)) = Some handle
              /\ IsValid (mkAudioFormat (mikmod_sample_rate s) S16 2)
                 = false))
  /\ (forall s',
         mikmod_decoder_file_decode fuel path_fs s = Asserted s' ->
         mikmod_loop s' = mikmod_loop s
         /\ mikmod_sample_rate s' = mikmod_sample_rate s
         /\ exists handle,
              fst (load path_fs 128 false (lib s)) = Some handle
              /\ calls s' = calls s ++ [Player_Load path_fs 128 false;
                                        Set_loop handle (mikmod_loop s)])
  /\ forall s',
       mikmod_decoder_file_decode fuel path_fs s = Returned tt s' ->
       mikmod_loop s' = mikmod_loop s
       /\ mikmod_sample_rate s' = mikmod_sample_rate s
       /\ match fst (load path_fs 128 false (lib s)) with
          | None =>
              calls s' = calls s ++ [Player_Load path_fs 128 false;
                                     FormatError (FailedToOpenMod path_fs)]
          | Some handle =>
              IsValid (mkAudioFormat (mikmod_sample_rate s) S16 2) = true
              /\ exists lens last,
                   calls s' =
                   calls s ++ prelude path_fs handle s
                   ++ flat_map turn lens ++ last
                   ++ [Player_Stop; Player_Free handle]
                   /\ (last = [] \/ last = [Player_Active])
          end.
Proof.
  destruct (load path_fs 128 false (lib s)) as [[h|] l1] eqn:Hl; cbn [fst].
  - destruct (IsValid (mkAudioFormat (mikmod_sample_rate s) S16 2)) eqn:Hv.
    + rewrite (file_decode_steps fuel path_fs s h l1 Hl Hv).
      destruct (decode_loop fuel NONE _) as [[] s1|s1|s1|] eqn:E.
      * split; [discriminate|].
        split; [split; [intros [s' H]; discriminate
                       |intros (h' & _ & H); discriminate]|].
        split; [discriminate|].
        intros s' H. injection H as <-. cbn.
        apply decode_loop_calls in E. cbn in E.
        destruct E as (El & Er & lens & last & Ec & Hlast & _).
        repeat split; try assumption.
        exists lens, last. split; [|exact Hlast].
        rewrite Ec, <- !app_assoc. reflexivity.
      * now destruct (proj1 (decode_loop_never_exits fuel NONE _) _ E).
      * now destruct (proj2 (decode_loop_never_exits fuel NONE _) _ E).
      * split; [discriminate|].
        split; [split; [intros [s' H]; discriminate
                       |intros (h' & _ & H); discriminate]|].
        split; discriminate.
    + rewrite (file_decode_asserts fuel path_fs s h l1 Hl Hv).
      split; [discriminate|].
      split; [split; [intros _; exists h; now split|intros _; eauto]|].
      split; [|discriminate].
      intros s' H. injection H as <-. cbn.
      split; [reflexivity|]. split; [reflexivity|].
      exists h. now split.
  - rewrite (file_decode_no_module fuel path_fs s l1 Hl).
    split; [discriminate|].
    split; [split; [intros [s' H]; discriminate
                   |intros (h' & H & _); discriminate]|].
    split; [discriminate|].
    intros s' H. injection H as <-. cbn. repeat split.
Qed.

(** X15. [mikmod_decoder_file_decode] returns on a file that is no
    module, whatever the fuel.  On a module, with a valid audio format, it
    returns as soon as the loop stops: when the player is found inactive or
    [decoder_data] returns a command within [n] turns, [n] turns of fuel
    and one more, or any larger amount, are enough. *)
Theorem file_decode_returns (path_fs : string) (s : Plugin L) :
  (fst (load path_fs 128 false (lib s)) = None ->
   forall fuel, exists s',
     mikmod_decoder_file_decode fuel path_fs s = Returned tt s')
  /\ (forall handle l1 n extra,
         load path_fs 128 false (lib s) = (Some handle, l1) ->
         IsValid (mkAudioFormat (mikmod_sample_rate s) S16 2) = true ->
         stops_within n (after l1 (tl (prelude path_fs handle s))) ->
         exists s',
           mikmod_decoder_file_decode (S n + extra) path_fs s
           = Returned tt s').
Proof.
  split.
  - intros Hl fuel.
    destruct (load path_fs 128 false (lib s)) as [[h|] l1] eqn:El;
      [discriminate|].
    rewrite (file_decode_no_module fuel path_fs s l1 El). eauto.
  - intros h l1 n extra Hl Hv Hstop.
    rewrite (file_decode_steps _ path_fs s h l1 Hl Hv).
    set (s0 := mkPlugin _ _ _ _).
    destruct (decode_loop_stops n s0 Hstop) as [s1 E].
    rewrite (decode_loop_more_fuel (S n) extra NONE s0 s1 E). eauto.
Qed.

(** X16. What [mikmod_decoder_init] has read from the block is what
    [mikmod_decoder_file_decode] uses afterwards: when it returns on a
    module, the audio format it has announced carries the sample rate of
    the block, or 44100 when the block gives none, and that rate is valid;
    and before that it has set the loop flag of the module to the setting of
    the block, or false. *)
Theorem configured_settings_reach_the_decoder (block : ConfigBlock)
        (s : Plugin L) (b : bool) (s1 : Plugin L) (fuel : nat)
        (path_fs : string) (handle : MODULE) (s2 : Plugin L) :
  mikmod_decoder_init block s = Returned b s1 ->
  fst (load path_fs 128 false (lib s1)) = Some handle ->
  mikmod_decoder_file_decode fuel path_fs s1 = Returned tt s2 ->
  audio_valid_sample_rate (GetBlockValue (block_sample_rate block) 44100)
  = true
  /\ exists rest,
       calls s2 =
       calls s1 ++
       [Player_Load path_fs 128 false;
        Set_loop handle (GetBlockValue (block_loop block) false);
        decoder_initialized
          (mkAudioFormat (GetBlockValue (block_sample_rate block) 44100)
                         S16 2) false Negative;
        Player_Start handle] ++ rest.
Proof.
  intros Hi Hl Hd.
  destruct (init_returned block s b s1 Hi) as (Hv & Hr & Hloop).
  split; [now rewrite <- Hr|].
  destruct (load path_fs 128 false (lib s1)) as [[h|] l1] eqn:El;
    cbn in Hl; [injection Hl as ->|discriminate].
  destruct (IsValid (mkAudioFormat (mikmod_sample_rate s1) S16 2)) eqn:Hf.
  - rewrite (file_decode_steps fuel path_fs s1 handle l1 El Hf) in Hd.
    destruct (decode_loop fuel NONE _) as [[] s3|s3|s3|] eqn:E;
      try discriminate.
    injection Hd as <-. cbn.
    apply decode_loop_calls in E. cbn in E.
    destruct E as (_ & _ & lens & last & Ec & _).
    exists (flat_map turn lens ++ last ++ [Player_Stop; Player_Free handle]).
    rewrite Ec. unfold prelude. rewrite Hr, Hloop, <- !app_assoc.
    reflexivity.
  - rewrite (file_decode_asserts fuel path_fs s1 handle l1 El Hf) in Hd.
    discriminate.
Qed.

End Facts.

(** ** The plugin at work on the scripted library *)

(** X11 on a block that asks for a sample rate of zero. *)
Lemma init_exits_on_an_invalid_sample_rate_witness :
  audio_valid_sample_rate
    (GetBlockValue (block_sample_rate (mkBlock None (Some 0) 7)) 44100)
  = false
  /\ exists s',
       mikmod_decoder_init (mkBlock None (Some 0) 7) (unconfigured two_turns)
       = Exited s'
       /\ calls s' =
          calls (unconfigured two_turns) ++
          [FormatFatalError
             (InvalidSampleRate (line (mkBlock None (Some 0) 7))
                (GetBlockValue (block_sample_rate (mkBlock None (Some 0) 7))
                               44100))].
Proof.
  split; [reflexivity|].
  exact (init_exits_on_an_invalid_sample_rate (mkBlock None (Some 0) 7)
           (unconfigured two_turns) eq_refl).
Defined.

(** X12 on a block that asks for 96000 Hz: the plugin keeps 96000 and
    [md_mixfreq] is left with 30464. *)
Lemma init_configures_the_library_witness :
  audio_valid_sample_rate
    (GetBlockValue (block_sample_rate (mkBlock None (Some 96000) 7)) 44100)
  = true
  /\ exists b s',
       mikmod_decoder_init (mkBlock None (Some 96000) 7)
                           (unconfigured two_turns)
       = Returned b s'
       /\ mikmod_loop s' = false
       /\ mikmod_sample_rate s' = 96000
       /\ b = true
       /\ calls s' =
          [Set_md_device 0; Set_md_reverb 0; MikMod_RegisterDriver;
           MikMod_RegisterAllLoaders; Set_md_pansep 64; Set_md_mixfreq 30464;
           Set_md_mode 523; MikMod_Init EmptyString].
Proof.
  assert (Hv : audio_valid_sample_rate
                 (GetBlockValue
                    (block_sample_rate (mkBlock None (Some 96000) 7))
                    44100) = true) by reflexivity.
  split; [exact Hv|].
  destruct (init_configures_the_library (mkBlock None (Some 96000) 7)
              (unconfigured two_turns) Hv)
    as (b & s' & E & Hl & Hr & Hb & Hc & _).
  exists b, s'. split; [exact E|]. split; [exact Hl|]. split; [exact Hr|].
  split; [exact Hb|]. rewrite Hc, Hr, Hb. reflexivity.
Defined.

Example init_on_the_default_rate :
  mikmod_decoder_init (mkBlock None None 7) (unconfigured two_turns)
  = Returned true
      (mkPlugin false 44100 two_turns
         [Set_md_device 0; Set_md_reverb 0; MikMod_RegisterDriver;
          MikMod_RegisterAllLoaders; Set_md_pansep 64; Set_md_mixfreq 44100;
          Set_md_mode 523; MikMod_Init EmptyString]).
Proof. vm_compute. reflexivity. Qed.

Example init_that_fails :
  mikmod_decoder_init (mkBlock (Some true) (Some 48000) 7)
                      (unconfigured nothing_works)
  = Returned false
      (mkPlugin true 48000 nothing_works
         (settings 48000 ++
          [MikMod_Init EmptyString;
           FormatError (CouldNotInit "Could not initialize sound hardware")])).
Proof. vm_compute. reflexivity. Qed.

Example scan_of_a_module_with_title :
  mikmod_decoder_scan_file tune (configured two_turns)
  = Returned true
      (mkPlugin false 44100 two_turns
         [Player_Load tune 128 false; Player_Free 1%nat;
          Player_LoadTitle tune; tag_handler_invoke_tag TAG_TITLE "Tune";
          MikMod_free "Tune"]).
Proof. vm_compute. reflexivity. Qed.

Example scan_of_a_module_without_title :
  mikmod_decoder_scan_file tune (configured stopped_at_once)
  = Returned true
      (mkPlugin false 44100 stopped_at_once
         [Player_Load tune 128 false; Player_Free 1%nat;
          Player_LoadTitle tune]).
Proof. vm_compute. reflexivity. Qed.

(** X14 on a module whose player stays active for two turns, and on the
    same module with a plugin whose sample rate is still 0. *)
Lemma file_decode_calls_witness :
  (exists s',
      mikmod_decoder_file_decode 3 tune (configured two_turns) = Returned tt s'
      /\ exists lens last,
           calls s' =
           calls (configured two_turns)
           ++ prelude tune 1%nat (configured two_turns)
           ++ flat_map turn lens ++ last ++ [Player_Stop; Player_Free 1%nat]
           /\ (last = [] \/ last = [Player_Active]))
  /\ IsValid (mkAudioFormat (mikmod_sample_rate (unconfigured two_turns))
                            S16 2) = false
  /\ exists s',
       mikmod_decoder_file_decode 3 tune (unconfigured two_turns)
       = Asserted s'
       /\ exists handle,
            fst (load tune 128 false (lib (unconfigured two_turns)))
            = Some handle
            /\ calls s' =
               calls (unconfigured two_turns)
               ++ [Player_Load tune 128 false;
                   Set_loop handle (mikmod_loop (unconfigured two_turns))].
Proof.
  split; [|split; [reflexivity|]].
  - destruct (mikmod_decoder_file_decode 3 tune (configured two_turns))
      as [[] s'| | |] eqn:E; try (vm_compute in E; discriminate).
    exists s'. split; [reflexivity|].
    exact (proj2 (proj2 (proj2
             (proj2 (proj2 (proj2
                (file_decode_calls 3 tune (configured two_turns)))) s' E)))).
  - destruct (mikmod_decoder_file_decode 3 tune (unconfigured two_turns))
      as [[] s'|s'|s'|] eqn:E; try (vm_compute in E; discriminate).
    exists s'. split; [reflexivity|].
    exact (proj2 (proj2
             (proj1 (proj2 (proj2
                (file_decode_calls 3 tune (unconfigured two_turns)))) s' E))).
Defined.

Example decode_before_init_asserts :
  mikmod_decoder_file_decode 3 tune (unconfigured two_turns)
  = Asserted
      (mkPlugin false 0 two_turns
         [Player_Load tune 128 false; Set_loop 1%nat false]).
Proof. vm_compute. reflexivity. Qed.

Example decode_of_two_turns :
  mikmod_decoder_file_decode 3 tune (configured two_turns)
  = Returned tt
      (mkPlugin false 44100 (mkScript [(tune, Some "Tune")] 0 [] false)
         (prelude tune 1%nat (configured two_turns)
          ++ turn 4096 ++ turn 4096
          ++ [Player_Active; Player_Stop; Player_Free 1%nat])).
Proof. vm_compute. reflexivity. Qed.

Example decode_stopped_by_a_command :
  mikmod_decoder_file_decode 2 tune (configured stopped_at_once)
  = Returned tt
      (mkPlugin false 44100 (mkScript [(tune, None)] 4 [] false)
         (prelude tune 1%nat (configured stopped_at_once)
          ++ turn 4096 ++ [Player_Stop; Player_Free 1%nat])).
Proof. vm_compute. reflexivity. Qed.

(** X15 on the same module: three turns of fuel are enough, and so are
    ten. *)
Lemma file_decode_returns_witness :
  load tune 128 false (lib (configured two_turns)) = (Some 1%nat, two_turns)
  /\ IsValid (mkAudioFormat (mikmod_sample_rate (configured two_turns)) S16 2)
     = true
  /\ stops_within 3
       (after two_turns (tl (prelude tune 1%nat (configured two_turns))))
  /\ (exists s',
         mikmod_decoder_file_decode 4 tune (configured two_turns)
         = Returned tt s')
  /\ (exists s',
         mikmod_decoder_file_decode 11 tune (configured two_turns)
         = Returned tt s')
  /\ fst (load "/music/readme.txt" 128 false (lib (configured two_turns)))
     = None
  /\ exists s',
       mikmod_decoder_file_decode 0 "/music/readme.txt"
                                  (configured two_turns) = Returned tt s'.
Proof.
  assert (Hl : load tune 128 false (lib (configured two_turns))
               = (Some 1%nat, two_turns)) by reflexivity.
  assert (Hv : IsValid (mkAudioFormat
                          (mikmod_sample_rate (configured two_turns)) S16 2)
               = true) by reflexivity.
  assert (Hs : stops_within 3
                 (after two_turns
                        (tl (prelude tune 1%nat (configured two_turns)))))
    by (cbn; right; right; right; right; now left).
  assert (Hn : fst (load "/music/readme.txt" 128 false
                         (lib (configured two_turns))) = None)
    by reflexivity.
  split; [exact Hl|]. split; [exact Hv|]. split; [exact Hs|].
  split; [|split; [|split; [exact Hn|]]].
  - exact (proj2 (file_decode_returns tune (configured two_turns))
                 1%nat two_turns 3%nat 0%nat Hl Hv Hs).
  - exact (proj2 (file_decode_returns tune (configured two_turns))
                 1%nat two_turns 3%nat 7%nat Hl Hv Hs).
  - exact (proj1 (file_decode_returns "/music/readme.txt"
                    (configured two_turns)) Hn 0%nat).
Defined.

(** X16: a block that asks for 48000 Hz and looping, then a module. *)
Lemma configured_settings_reach_the_decoder_witness :
  exists b s1 s2,
    mikmod_decoder_init (mkBlock (Some true) (Some 48000) 7)
                        (unconfigured two_turns) = Returned b s1
    /\ fst (load tune 128 false (lib s1)) = Some 1%nat
    /\ mikmod_decoder_file_decode 3 tune s1 = Returned tt s2
    /\ audio_valid_sample_rate 48000 = true
    /\ exists rest,
         calls s2 =
         calls s1 ++
         [Player_Load tune 128 false; Set_loop 1%nat true;
          decoder_initialized (mkAudioFormat 48000 S16 2) false Negative;
          Player_Start 1%nat] ++ rest.
Proof.
  destruct (mikmod_decoder_init (mkBlock (Some true) (Some 48000) 7)
              (unconfigured two_turns)) as [b s1| | |] eqn:Ei;
    try (vm_compute in Ei; discriminate).
  assert (Hl : fst (load tune 128 false (lib s1)) = Some 1%nat)
    by (vm_compute in Ei; injection Ei as _ <-; reflexivity).
  destruct (mikmod_decoder_file_decode 3 tune s1) as [[] s2| | |] eqn:Ed;
    try (vm_compute in Ei; injection Ei as _ <-;
         vm_compute in Ed; discriminate).
  exists b, s1, s2. split; [reflexivity|]. split; [exact Hl|].
  split; [exact Ed|].
  exact (configured_settings_reach_the_decoder
           (mkBlock (Some true) (Some 48000) 7) (unconfigured two_turns)
           b s1 3 tune 1%nat s2 Ei Hl Ed).
Defined.

End MikmodTheory.
